(** * The entity library of the Word add-in guide

    A shallow embedding of [examples/src/entity-insertion.ts] (the class
    [EntityLibrary], [insertEntityWithFields]) and of the [search] method
    that the recipe [docs/05-recipes/entity-insertion-patterns.md] adds to the
    same class.

    JavaScript strings are sequences of code units.  The development covers
    the strings whose code units all lie in U+0000 to U+00FF, written as
    lists of [ascii]; a string with a code unit above U+00FF is not
    represented, and no statement below speaks of one. *)

From Stdlib Require Import List Ascii String Bool Arith Lia ZArith Permutation.
Import ListNotations.

(** ** Strings *)

Definition jsstring := list ascii.

(** A string literal of the source. *)
Definition js (s : string) : jsstring := list_ascii_of_string s.

(** [a === b] on strings. *)
Fixpoint jsstring_eqb (a b : jsstring) : bool :=
  match a, b with
  | [], [] => true
  | x :: a', y :: b' => Ascii.eqb x y && jsstring_eqb a' b'
  | _, _ => false
  end.

(** [s.startsWith(q)]: [q] is a prefix of [s]. *)
Fixpoint startsWith (s q : jsstring) {struct q} : bool :=
  match q, s with
  | [], _ => true
  | x :: q', y :: s' => Ascii.eqb x y && startsWith s' q'
  | _ :: _, [] => false
  end.

(** [s.includes(q)]: [q] occurs in [s] at some index. *)
Fixpoint includes (s q : jsstring) : bool :=
  startsWith s q ||
  match s with
  | [] => false
  | _ :: s' => includes s' q
  end.

Definition code_in (lo hi : nat) (c : ascii) : bool :=
  (lo <=? nat_of_ascii c) && (nat_of_ascii c <=? hi).

(** Code units with a lowercase mapping: A-Z, and the Latin-1 capitals
    U+00C0-U+00DE without the multiplication sign U+00D7. *)
Definition has_lower (c : ascii) : bool :=
  code_in 65 90 c || (code_in 192 222 c && negb (nat_of_ascii c =? 215)).

Definition toLowerCase_unit (c : ascii) : ascii :=
  if has_lower c then ascii_of_nat (nat_of_ascii c + 32) else c.

(** [s.toLowerCase()] for a string of the range U+0000-U+00FF.  On such a
    string the lowercase mapping works code unit by code unit and stays in
    the range.  The mappings of [String.prototype.toLowerCase] that look at
    the neighbours of a character (the final sigma) or change the length
    (U+0130) start from code units above U+00FF; they are outside this
    definition, as every string with such a code unit is. *)
Definition toLowerCase (s : jsstring) : jsstring := map toLowerCase_unit s.





(** ** Map<string, V>

    A JavaScript [Map] iterates in the order in which its keys were first
    inserted; [set] on a key that is present replaces the value and keeps the
    key's place. *)

Section JsMap.

Variable V : Type.

Definition Map := list (jsstring * V).

Definition Map_empty : Map := [].

Fixpoint Map_get (m : Map) (k : jsstring) : option V :=
  match m with
  | [] => None
  | (k', v) :: m' => if jsstring_eqb k' k then Some v else Map_get m' k
  end.

Fixpoint Map_set (m : Map) (k : jsstring) (v : V) : Map :=
  match m with
  | [] => [(k, v)]
  | (k', v') :: m' =>
      if jsstring_eqb k' k then (k', v) :: m' else (k', v') :: Map_set m' k v
  end.

Definition Map_keys (m : Map) : list jsstring := map fst m.

Definition Map_values (m : Map) : list V := map snd m.

End JsMap.

Arguments Map_empty {V}.
Arguments Map_get {V} m k.
Arguments Map_set {V} m k v.
Arguments Map_keys {V} m.
Arguments Map_values {V} m.

(** ** StandardEntity, EntityWithFields

    [category] has the static type
    ['legal' | 'boilerplate' | 'signature' | 'header' | 'footer']; at run time
    it is a string, and no code of the library inspects it except the
    comparison in [getByCategory].  [lastUpdated] is the time value of the
    [Date], in milliseconds. *)

Record StandardEntity := {
  id : jsstring;
  name : jsstring;
  category : jsstring;
  content : jsstring;
  version : jsstring;
  lastUpdated : Z
}.

(** [fieldValues] is held as [Object.entries(fieldValues)], the pairs in the
    object's iteration order. *)
Record EntityWithFields := {
  entityId : jsstring;
  fieldValues : list (jsstring * jsstring)
}.

(** ** class EntityLibrary *)

Record EntityLibrary := { entities : Map StandardEntity }.

(** [this.entities.set(entity.id, entity)], the body of the loop of
    [loadDefaultEntities]: the one statement that stores an entity. *)
Definition register (lib : EntityLibrary) (entity : StandardEntity) : EntityLibrary :=
  {| entities := Map_set (entities lib) (id entity) entity |}.

(** [for (const entity of defaults) this.entities.set(entity.id, entity)] *)
Definition loadDefaultEntities (defaults : list StandardEntity) (lib : EntityLibrary)
  : EntityLibrary :=
  fold_left register defaults lib.

(** The defaults of [examples/src/entity-insertion.ts]. *)
Definition defaults : list StandardEntity :=
  [ {| id := js "confidentiality-clause";
       name := js "Confidentiality Clause";
       category := js "legal";
       content := js "Both parties agree to maintain the confidentiality of all proprietary information disclosed during the term of this agreement.";
       version := js "1.0";
       lastUpdated := 1704067200000 |};
    {| id := js "governing-law";
       name := js "Governing Law";
       category := js "legal";
       content := js "This Agreement shall be governed by and construed in accordance with the laws of the State of [STATE].";
       version := js "2.1";
       lastUpdated := 1707955200000 |};
    {| id := js "company-signature";
       name := js "Company Signature Block";
       category := js "signature";
       content := js "ACME CORPORATION

By: _______________________
Name: [AUTHORIZED_NAME]
Title: [AUTHORIZED_TITLE]";
       version := js "1.0";
       lastUpdated := 1704067200000 |} ].


Definition empty_library : EntityLibrary := {| entities := Map_empty |}.

(** [new EntityLibrary()] of [examples/src/entity-insertion.ts]. *)
Definition new_EntityLibrary : EntityLibrary :=
  loadDefaultEntities defaults empty_library.


(** [getEntity(id)]: [this.entities.get(id)]; [None] is [undefined]. *)
Definition getEntity (lib : EntityLibrary) (i : jsstring) : option StandardEntity :=
  Map_get (entities lib) i.

(** [Array.from(this.entities.values()).filter(e => e.category === category)] *)
Definition getByCategory (lib : EntityLibrary) (c : jsstring) : list StandardEntity :=
  filter (fun e => jsstring_eqb (category e) c) (Map_values (entities lib)).

(** The filter predicate of [search]. *)
Definition search_hit (lowerQuery : jsstring) (e : StandardEntity) : bool :=
  includes (toLowerCase (name e)) lowerQuery ||
  includes (toLowerCase (content e)) lowerQuery.

(** [search(query)] of the recipe. *)
Definition search (lib : EntityLibrary) (query : jsstring) : list StandardEntity :=
  let lowerQuery := toLowerCase query in
  filter (search_hit lowerQuery) (Map_values (entities lib)).

(** ** Results of JavaScript code *)

Inductive JsError :=
| Error (message : jsstring)
| SyntaxError
| DocumentError (message : jsstring) (cause : JsError).

(** [OutOfModel]: the run reaches a regular expression outside the fragment
    of the pattern language that is embedded below; nothing is said about
    such a run. *)
Inductive result (A : Type) :=
| Ok (a : A)
| Throws (e : JsError)
| OutOfModel.

Arguments Ok {A} a.
Arguments Throws {A} e.
Arguments OutOfModel {A}.

(** ** new RegExp(pattern, 'g')

    The embedded fragment of the pattern language: alternatives of terms,
    a term being one character or [.], alone or under a greedy [*], [+]
    or [?].  There is no group in the fragment, so a match has no capture. *)

Inductive atom := Lit (c : ascii) | Dot.

Inductive quantifier := One | Star | Plus | Opt.

Definition term := (atom * quantifier)%type.

Definition alternative := list term.

Record RegExp := { disjunction : list alternative }.

(** The syntax characters of a pattern. *)
Definition syntax_character (c : ascii) : bool :=
  existsb (Ascii.eqb c) (js "^$\.*+?()[]{}|").

Inductive token :=
| TAtom (a : atom)
| TStar
| TPlus
| TQuestion
| TBar
| TClose
| TDangling
| TOther.

(** Lexing: [\] before a syntax character or [/] is that character; [\] at
    the end is [TDangling]; every other escape, and each of
    [^ $ ( [ ] { }], is [TOther]. *)
Fixpoint tokenize (p : jsstring) : list token :=
  match p with
  | [] => []
  | c :: rest =>
      if Ascii.eqb c "\" then
        match rest with
        | [] => [TDangling]
        | e :: rest' =>
            (if syntax_character e || Ascii.eqb e "/" then TAtom (Lit e) else TOther)
              :: tokenize rest'
        end
      else if Ascii.eqb c "." then TAtom Dot :: tokenize rest
      else if Ascii.eqb c "*" then TStar :: tokenize rest
      else if Ascii.eqb c "+" then TPlus :: tokenize rest
      else if Ascii.eqb c "?" then TQuestion :: tokenize rest
      else if Ascii.eqb c "|" then TBar :: tokenize rest
      else if Ascii.eqb c ")" then TClose :: tokenize rest
      else if syntax_character c then TOther :: tokenize rest
      else TAtom (Lit c) :: tokenize rest
  end.

Inductive compiled :=
| Compiled (r : RegExp)
| PatternSyntaxError
| PatternOutOfModel.

Definition add_term (t : term) (c : compiled) : compiled :=
  match c with
  | Compiled {| disjunction := alt :: alts |} =>
      Compiled {| disjunction := (t :: alt) :: alts |}
  | Compiled {| disjunction := [] |} => Compiled {| disjunction := [[t]] |}
  | other => other
  end.

Definition add_alternative (c : compiled) : compiled :=
  match c with
  | Compiled {| disjunction := alts |} => Compiled {| disjunction := [] :: alts |}
  | other => other
  end.

Definition is_question (ts : list token) : bool :=
  match ts with
  | TQuestion :: _ => true
  | _ => false
  end.

(** Parsing.  A quantifier with nothing to repeat, an unmatched [)] and a
    trailing [\] are syntax errors; a quantifier followed by [?] is lazy and
    outside the fragment. *)
Fixpoint parse (ts : list token) : compiled :=
  match ts with
  | [] => Compiled {| disjunction := [[]] |}
  | TBar :: rest => add_alternative (parse rest)
  | TAtom a :: rest =>
      match rest with
      | TStar :: rest' =>
          if is_question rest' then PatternOutOfModel else add_term (a, Star) (parse rest')
      | TPlus :: rest' =>
          if is_question rest' then PatternOutOfModel else add_term (a, Plus) (parse rest')
      | TQuestion :: rest' =>
          if is_question rest' then PatternOutOfModel else add_term (a, Opt) (parse rest')
      | _ => add_term (a, One) (parse rest)
      end
  | TStar :: _ | TPlus :: _ | TQuestion :: _ => PatternSyntaxError
  | TClose :: _ => PatternSyntaxError
  | TDangling :: _ => PatternSyntaxError
  | TOther :: _ => PatternOutOfModel
  end.

Definition is_other (t : token) : bool :=
  match t with
  | TOther => true
  | _ => false
  end.

(** [new RegExp(pattern, 'g')]. A pattern with a construct outside the
    fragment is not judged at all. *)
Definition new_RegExp (pattern : jsstring) : compiled :=
  let ts := tokenize pattern in
  if existsb is_other ts then PatternOutOfModel else parse ts.

(** *** Matching at one index *)

(** [.] matches every code unit but the line terminators. *)
Definition atom_matches (a : atom) (c : ascii) : bool :=
  match a with
  | Lit x => Ascii.eqb x c
  | Dot => negb (Ascii.eqb c "010" || Ascii.eqb c "013")
  end.

(** A match is the pair of the matched text and the rest of the input. *)
Definition matched := (jsstring * jsstring)%type.

Definition extend (c : ascii) (m : option matched) : option matched :=
  match m with
  | Some (t, rest) => Some (c :: t, rest)
  | None => None
  end.

(** Greedy repetition of [a] followed by the continuation [k]: as many
    characters as possible, one fewer on backtracking. *)
Fixpoint match_star (a : atom) (k : jsstring -> option matched) (s : jsstring)
  : option matched :=
  match s with
  | c :: s' =>
      if atom_matches a c then
        match match_star a k s' with
        | Some (t, rest) => Some (c :: t, rest)
        | None => k s
        end
      else k s
  | [] => k []
  end.

Fixpoint match_terms (ts : alternative) : jsstring -> option matched :=
  match ts with
  | [] => fun s => Some ([], s)
  | (a, q) :: ts' =>
      let k := match_terms ts' in
      match q with
      | One => fun s =>
          match s with
          | c :: s' => if atom_matches a c then extend c (k s') else None
          | [] => None
          end
      | Star => match_star a k
      | Plus => fun s =>
          match s with
          | c :: s' => if atom_matches a c then extend c (match_star a k s') else None
          | [] => None
          end
      | Opt => fun s =>
          match s with
          | c :: s' =>
              if atom_matches a c then
                match k s' with
                | Some (t, rest) => Some (c :: t, rest)
                | None => k s
                end
              else k s
          | [] => k []
          end
      end
  end.

(** The alternatives are tried from left to right. *)
Fixpoint match_alternatives (alts : list alternative) (s : jsstring) : option matched :=
  match alts with
  | [] => None
  | alt :: alts' =>
      match match_terms alt s with
      | Some m => Some m
      | None => match_alternatives alts' s
      end
  end.

Definition match_at (r : RegExp) (s : jsstring) : option matched :=
  match_alternatives (disjunction r) s.

(** *** String.prototype.replace with a global RegExp and a string *)

(** The replacement text of one match without captures: [$$] is a dollar
    sign, [$&] the matched text, [$`] the input before the match and [$']
    the input after it; every other character, a lone [$] included, stands
    for itself. *)
Fixpoint GetSubstitution (matched_text before after template : jsstring) : jsstring :=
  match template with
  | [] => []
  | c :: t =>
      if Ascii.eqb c "$" then
        match t with
        | [] => [c]
        | d :: t' =>
            if Ascii.eqb d "$" then "$"%char :: GetSubstitution matched_text before after t'
            else if Ascii.eqb d "&" then matched_text ++ GetSubstitution matched_text before after t'
            else if Ascii.eqb d "`" then before ++ GetSubstitution matched_text before after t'
            else if Ascii.eqb d "'" then after ++ GetSubstitution matched_text before after t'
            else c :: GetSubstitution matched_text before after t
        end
      else c :: GetSubstitution matched_text before after t
  end.

(** The scan of [replace]: [seen] is the input up to the current index,
    reversed; [skip] counts the characters of the current match still to be
    passed over.  At each index outside a match the expression is tried;
    after an empty match the scan moves on by one character. *)
Fixpoint replace_scan (r : RegExp) (replaceValue seen s : jsstring) (skip : nat)
  : jsstring :=
  match skip with
  | S k =>
      match s with
      | c :: s' => replace_scan r replaceValue (c :: seen) s' k
      | [] => []
      end
  | O =>
      match match_at r s with
      | Some (t, rest) =>
          GetSubstitution t (rev seen) rest replaceValue ++
          match s with
          | c :: s' =>
              match t with
              | [] => c :: replace_scan r replaceValue (c :: seen) s' 0
              | _ :: t' => replace_scan r replaceValue (c :: seen) s' (List.length t')
              end
          | [] => []
          end
      | None =>
          match s with
          | c :: s' => c :: replace_scan r replaceValue (c :: seen) s' 0
          | [] => []
          end
      end
  end.

(** [s.replace(r, replaceValue)] *)
Definition String_replace (s : jsstring) (r : RegExp) (replaceValue : jsstring) : jsstring :=
  replace_scan r replaceValue [] s 0.

(** ** Placeholder substitution *)

(** The template literal [`\\[${placeholder}\\]`]. *)
Definition placeholder_pattern (placeholder : jsstring) : jsstring :=
  js "\[" ++ placeholder ++ js "\]".

(** The loop of [insertEntityWithFields]:
[[
    let content = entity.content;
    for (const [placeholder, value] of Object.entries(fieldValues))
      content = content.replace(new RegExp(`\\[${placeholder}\\]`, 'g'), value);
]]
    The specification calls it resolvePlaceholders. *)
Fixpoint resolvePlaceholders (content : jsstring) (entries : list (jsstring * jsstring))
  : result jsstring :=
  match entries with
  | [] => Ok content
  | (placeholder, value) :: rest =>
      match new_RegExp (placeholder_pattern placeholder) with
      | Compiled r => resolvePlaceholders (String_replace content r value) rest
      | PatternSyntaxError => Throws SyntaxError
      | PatternOutOfModel => OutOfModel
      end
  end.

(** ** The add-in: the library and the document *)

(** [selection] is the text at the current selection of the Word document. *)
Record World := {
  library : EntityLibrary;
  selection : jsstring
}.

(** [safeWordRun]: an error of the callback is thrown again as a
    [DocumentError] with that error as its cause.  The host itself is taken
    not to fail. *)
Definition safeWordRun {A : Type} (r : result A) : result A :=
  match r with
  | Throws e => Throws (DocumentError (js "Failed to execute Word operation") e)
  | other => other
  end.

(** [insertEntityWithFields(entityWithFields)]: the result of the call and
    the state after it. *)
Definition insertEntityWithFields (entityWithFields : EntityWithFields) (w : World)
  : result unit * World :=
  match getEntity (library w) (entityId entityWithFields) with
  | None =>
      (Throws (Error (js "Entity not found: " ++ entityId entityWithFields)), w)
  | Some entity =>
      match safeWordRun (resolvePlaceholders (content entity) (fieldValues entityWithFields)) with
      | Ok text => (Ok tt, {| library := library w; selection := text |})
      | Throws e => (Throws e, w)
      | OutOfModel => (OutOfModel, w)
      end
  end.

(** The token [[KEY]] of a placeholder. *)
Definition token_of (key : jsstring) : jsstring := js "[" ++ key ++ js "]".

(** ** Notions used in the statements *)

(** The library after storing the entities [es], in this order, into an
    empty map. *)
Definition registered (es : list StandardEntity) : EntityLibrary :=
  loadDefaultEntities es empty_library.

(** Every entry of the map is filed under the id of its entity, and no key
    occurs twice. *)
Definition well_keyed (lib : EntityLibrary) : Prop :=
  NoDup (Map_keys (entities lib)) /\
  Forall (fun kv => id (snd kv) = fst kv) (entities lib).


(** A placeholder name without pattern syntax characters. *)
Definition plain_key (k : jsstring) : bool :=
  forallb (fun c => negb (syntax_character c)) k.

(** A replacement value without a dollar sign. *)
Definition dollar_free (v : jsstring) : bool :=
  forallb (fun c => negb (Ascii.eqb c "$")) v.

(** A text without brackets. *)
Definition bracket_free (k : jsstring) : bool :=
  forallb (fun c => negb (Ascii.eqb c "[" || Ascii.eqb c "]")) k.

(** The alternative that matches the text [s] and nothing else. *)
Definition literal (s : jsstring) : alternative :=
  map (fun c => (Lit c, One)) s.

Definition keys_of (entries : list (jsstring * jsstring)) : list jsstring :=
  map fst entries.

Definition values_of (entries : list (jsstring * jsstring)) : list jsstring :=
  map snd entries.

(** The expression that matches the text [t] and nothing else. *)
Definition literal_RegExp (t : jsstring) : RegExp :=
  {| disjunction := [literal t] |}.

(** One turn of the loop for a key whose expression is literal. *)
Definition replace_token (key value s : jsstring) : jsstring :=
  String_replace s (literal_RegExp (token_of key)) value.

(** The loop when every expression is literal. *)
Definition replace_tokens (s : jsstring) (entries : list (jsstring * jsstring)) : jsstring :=
  fold_left (fun acc kv => replace_token (fst kv) (snd kv) acc) entries s.

(** ** Sample data of the examples below *)

(** The second default entity. *)
Definition governing_law : StandardEntity :=
  {| id := js "governing-law";
     name := js "Governing Law";
     category := js "legal";
     content := js "This Agreement shall be governed by and construed in accordance with the laws of the State of [STATE].";
     version := js "2.1";
     lastUpdated := 1707955200000 |}.

(** A later version under the same id. *)
Definition governing_law_v3 : StandardEntity :=
  {| id := js "governing-law";
     name := js "Governing Law";
     category := js "legal";
     content := js "Governed by the laws of [STATE].";
     version := js "3.0";
     lastUpdated := 1709251200000 |}.

Definition sample (i c : string) : StandardEntity :=
  {| id := js i; name := js i; category := js c;
     content := js "text"; version := js "1"; lastUpdated := 0 |}.

(** The third default entity, with its two placeholders. *)
Definition company_signature : StandardEntity :=
  {| id := js "company-signature";
     name := js "Company Signature Block";
     category := js "signature";
     content := js "ACME CORPORATION

By: _______________________
Name: [AUTHORIZED_NAME]
Title: [AUTHORIZED_TITLE]";
     version := js "1.0";
     lastUpdated := 1704067200000 |}.

(** The field values of the governing-law example. *)
Definition delaware : EntityWithFields :=
  {| entityId := js "governing-law";
     fieldValues := [(js "STATE", js "Delaware")] |}.

(** Three entities stored in an order that is not the alphabetical one. *)
Definition unsorted_samples : list StandardEntity :=
  [sample "zeta" "footer"; sample "mid" "header"; sample "alpha" "footer"].

(** ** Placeholder templates *)

(** A template cut into plain text and placeholders. *)
Inductive segment :=
| Text (t : jsstring)
| Placeholder (key : jsstring).

Definition render_segment (seg : segment) : jsstring :=
  match seg with
  | Text t => t
  | Placeholder key => token_of key
  end.

(** The content that a list of segments stands for. *)
Definition render (segs : list segment) : jsstring :=
  List.concat (map render_segment segs).

(** Neither a text nor a key of the template has a bracket. *)
Definition flat_segment (seg : segment) : bool :=
  match seg with
  | Text t => bracket_free t
  | Placeholder key => bracket_free key
  end.

(** Every placeholder with a value is replaced by it, all at once. *)
Definition fill_segment (entries : list (jsstring * jsstring)) (seg : segment) : segment :=
  match seg with
  | Text t => Text t
  | Placeholder key =>
      match Map_get entries key with
      | Some v => Text v
      | None => Placeholder key
      end
  end.

(** ** String.prototype.replace with a string pattern

    Only the first occurrence of the pattern is replaced; the replacement
    text is built as for a regular expression without captures. *)

Fixpoint replace_first_scan (pattern replaceValue seen s : jsstring) : jsstring :=
  if startsWith s pattern then
    GetSubstitution pattern (rev seen) (skipn (List.length pattern) s) replaceValue
      ++ skipn (List.length pattern) s
  else
    match s with
    | [] => []
    | c :: s' => c :: replace_first_scan pattern replaceValue (c :: seen) s'
    end.

(** [s.replace(pattern, replaceValue)] for a string [pattern]. *)
Definition String_replace_first (s pattern replaceValue : jsstring) : jsstring :=
  replace_first_scan pattern replaceValue [] s.

(** ** Content controls

    The properties of a [Word.ContentControl] that the examples read or
    write.  [insertText(text, Word.InsertLocation.replace)] on a control
    makes [text] the text of the control. *)

Module ContentControl.

Inductive Appearance := boundingBox | tags | hidden.

Inductive Kind := richText | dropDownList | buildingBlockGallery.

Record DropdownItem := {
  displayText : jsstring;
  value : jsstring;
  selected : bool
}.

Record t := {
  id : Z;
  tag : jsstring;
  title : jsstring;
  text : jsstring;
  placeholderText : jsstring;
  appearance : Appearance;
  color : jsstring;
  type : Kind;
  dropdownListValues : list DropdownItem
}.

(** [control.insertText(s, Word.InsertLocation.replace)] *)
Definition insertText (control : t) (s : jsstring) : t :=
  {| id := id control; tag := tag control; title := title control; text := s;
     placeholderText := placeholderText control; appearance := appearance control;
     color := color control; type := type control;
     dropdownListValues := dropdownListValues control |}.

(** [control.tag = s] *)
Definition set_tag (control : t) (s : jsstring) : t :=
  {| id := id control; tag := s; title := title control; text := text control;
     placeholderText := placeholderText control; appearance := appearance control;
     color := color control; type := type control;
     dropdownListValues := dropdownListValues control |}.

End ContentControl.

(** The items of [context.document.contentControls], in document order. *)
Definition ContentControls := list ContentControl.t.

(** [createEntityInsertionPoint(entityType, label)], applied to the control
    that [range.insertContentControl()] has made: the configured control and
    the id that is returned. *)
Definition createEntityInsertionPoint (entityType label : jsstring)
  (control : ContentControl.t) : ContentControl.t * Z :=
  ({| ContentControl.id := ContentControl.id control;
      ContentControl.tag := js "entity:" ++ entityType;
      ContentControl.title := label;
      ContentControl.text := ContentControl.text control;
      ContentControl.placeholderText := js "[Insert " ++ label ++ js "]";
      ContentControl.appearance := ContentControl.boundingBox;
      ContentControl.color := js "blue";
      ContentControl.type := ContentControl.type control;
      ContentControl.dropdownListValues := ContentControl.dropdownListValues control |},
   ContentControl.id control).

(** The loop of [resolveEntityInsertionPoints]; [resolved] is the array of
    that name. *)
Fixpoint resolve_loop (lib : EntityLibrary) (items : ContentControls)
  (resolved : list jsstring) : ContentControls * list jsstring :=
  match items with
  | [] => ([], resolved)
  | control :: rest =>
      if startsWith (ContentControl.tag control) (js "entity:") then
        let entityType :=
          String_replace_first (ContentControl.tag control) (js "entity:") [] in
        match getEntity lib entityType with
        | Some entity =>
            let control' :=
              ContentControl.set_tag
                (ContentControl.insertText control (content entity))
                (js "resolved:" ++ entityType) in
            let (rest', out) := resolve_loop lib rest (resolved ++ [entityType]) in
            (control' :: rest', out)
        | None =>
            let (rest', out) := resolve_loop lib rest resolved in
            (control :: rest', out)
        end
      else
        let (rest', out) := resolve_loop lib rest resolved in
        (control :: rest', out)
  end.

(** [resolveEntityInsertionPoints()]: the controls afterwards and the array
    that is returned. *)
Definition resolveEntityInsertionPoints (lib : EntityLibrary) (items : ContentControls)
  : ContentControls * list jsstring :=
  resolve_loop lib items [].

(** ** insertEntity *)

(** The range that [range.insertText(..., Word.InsertLocation.replace)]
    returns, with the font properties that the code assigns ([None]: not
    assigned). *)
Record InsertedRange := {
  inserted_text : jsstring;
  font_italic : option bool;
  font_size : option Z
}.

(** [insertEntity(entityId)]: the range put in place of the selection. *)
Definition insertEntity (lib : EntityLibrary) (entityId : jsstring)
  : result InsertedRange :=
  match getEntity lib entityId with
  | None => Throws (Error (js "Entity not found: " ++ entityId))
  | Some entity =>
      safeWordRun
        (Ok (if jsstring_eqb (category entity) (js "legal") then
               {| inserted_text := content entity;
                  font_italic := Some true; font_size := None |}
             else if jsstring_eqb (category entity) (js "signature") then
               {| inserted_text := content entity;
                  font_italic := None; font_size := Some 11%Z |}
             else
               {| inserted_text := content entity;
                  font_italic := None; font_size := None |}))
  end.

(** ** insertConditionalEntities (recipe)

    The recipe's [insertEntity] calls [Word.run] itself where the example
    file calls [safeWordRun]; with a host that does not fail the two are the
    same function. *)

Record DocumentContext := {
  documentType : option jsstring;
  region : option jsstring;
  industry : option jsstring;
  hasSensitiveData : option bool
}.

Module ConditionalEntity.

Record t := {
  entityId : jsstring;
  condition : DocumentContext -> bool
}.

End ConditionalEntity.

(** The loop of [insertConditionalEntities]: [inserted] is the array of that
    name, [ranges] the ranges put into the document so far, one after the
    other.  An error of [insertEntity] ends the loop. *)
Fixpoint insertConditionalEntities_loop (lib : EntityLibrary) (context : DocumentContext)
  (conditionalEntities : list ConditionalEntity.t)
  (inserted : list jsstring) (ranges : list InsertedRange)
  : list InsertedRange * result (list jsstring) :=
  match conditionalEntities with
  | [] => (ranges, Ok inserted)
  | item :: rest =>
      if ConditionalEntity.condition item context then
        match insertEntity lib (ConditionalEntity.entityId item) with
        | Ok r =>
            insertConditionalEntities_loop lib context rest
              (inserted ++ [ConditionalEntity.entityId item]) (ranges ++ [r])
        | Throws e => (ranges, Throws e)
        | OutOfModel => (ranges, OutOfModel)
        end
      else insertConditionalEntities_loop lib context rest inserted ranges
  end.

(** [insertConditionalEntities(context, conditionalEntities)]: the ranges
    put into the document and the result of the call. *)
Definition insertConditionalEntities (lib : EntityLibrary) (context : DocumentContext)
  (conditionalEntities : list ConditionalEntity.t)
  : list InsertedRange * result (list jsstring) :=
  insertConditionalEntities_loop lib context conditionalEntities [] [].

(** ** Content control management *)

(** [options.map((opt, idx) => ({ ...opt, selected: idx === defaultIndex }))],
    from index [idx] on.  [defaultIndex] is taken among the integers. *)
Fixpoint mark_selected (options : list (jsstring * jsstring)) (idx : nat)
  (defaultIndex : Z) : list ContentControl.DropdownItem :=
  match options with
  | [] => []
  | (displayText, value) :: rest =>
      {| ContentControl.displayText := displayText;
         ContentControl.value := value;
         ContentControl.selected := Z.eqb (Z.of_nat idx) defaultIndex |}
        :: mark_selected rest (S idx) defaultIndex
  end.

(** [createDropdownControl(title, tag, options, defaultIndex)], applied to
    the control that [range.insertContentControl()] has made; an option is
    the pair of its [displayText] and its [value]. *)
Definition createDropdownControl (title tag : jsstring)
  (options : list (jsstring * jsstring)) (defaultIndex : Z)
  (control : ContentControl.t) : ContentControl.t * Z :=
  ({| ContentControl.id := ContentControl.id control;
      ContentControl.tag := tag;
      ContentControl.title := title;
      ContentControl.text := ContentControl.text control;
      ContentControl.placeholderText := ContentControl.placeholderText control;
      ContentControl.appearance := ContentControl.appearance control;
      ContentControl.color := ContentControl.color control;
      ContentControl.type := ContentControl.dropDownList;
      ContentControl.dropdownListValues := mark_selected options 0 defaultIndex |},
   ContentControl.id control).

(** [FormData]: the own properties of the object.  The order of the list is
    the order in which the keys were first written; only lookups are used. *)
Definition FormData := list (jsstring * jsstring).

(** The property names that every ordinary object inherits from
    [Object.prototype]. *)
Definition Object_prototype_names : list jsstring :=
  [js "constructor"; js "hasOwnProperty"; js "isPrototypeOf";
   js "propertyIsEnumerable"; js "toLocaleString"; js "toString"; js "valueOf";
   js "__proto__"; js "__defineGetter__"; js "__defineSetter__";
   js "__lookupGetter__"; js "__lookupSetter__"].

(** The value of [data[key]]: an own string, a value inherited from
    [Object.prototype] (which is not a string), or [undefined]. *)
Inductive property :=
| Own (v : jsstring)
| Inherited
| Undefined.

(** [data[key]] *)
Definition FormData_get (data : FormData) (key : jsstring) : property :=
  match Map_get data key with
  | Some v => Own v
  | None =>
      if existsb (jsstring_eqb key) Object_prototype_names then Inherited
      else Undefined
  end.

(** [values[key] = v]: an own property is made or overwritten; the key
    [__proto__] reaches the setter of [Object.prototype], which ignores a
    string. *)
Definition FormData_set (values : FormData) (key v : jsstring) : FormData :=
  if jsstring_eqb key (js "__proto__") then values else Map_set values key v.

(** A string is truthy unless it is empty. *)
Definition truthy (s : jsstring) : bool :=
  match s with
  | [] => false
  | _ :: _ => true
  end.

(** The loop of [fillFormTemplate]: the controls afterwards, [filled] and
    [missing].  A control whose tag names an inherited property would be
    given a value that is not a string; such a run is outside the model. *)
Fixpoint fillFormTemplate_loop (data : FormData) (items : ContentControls)
  (filled missing : list jsstring)
  : result (ContentControls * list jsstring * list jsstring) :=
  match items with
  | [] => Ok ([], filled, missing)
  | control :: rest =>
      if truthy (ContentControl.tag control) then
        match FormData_get data (ContentControl.tag control) with
        | Own v =>
            match fillFormTemplate_loop data rest
                    (filled ++ [ContentControl.tag control]) missing with
            | Ok (rest', f, m) => Ok (ContentControl.insertText control v :: rest', f, m)
            | Throws e => Throws e
            | OutOfModel => OutOfModel
            end
        | Inherited => OutOfModel
        | Undefined =>
            match fillFormTemplate_loop data rest filled
                    (missing ++ [ContentControl.tag control]) with
            | Ok (rest', f, m) => Ok (control :: rest', f, m)
            | Throws e => Throws e
            | OutOfModel => OutOfModel
            end
        end
      else
        match fillFormTemplate_loop data rest filled missing with
        | Ok (rest', f, m) => Ok (control :: rest', f, m)
        | Throws e => Throws e
        | OutOfModel => OutOfModel
        end
  end.

(** [fillFormTemplate(data)]: the controls afterwards, the array [filled]
    that is returned, and the array [missing] that is written to the
    console when it is not empty. *)
Definition fillFormTemplate (data : FormData) (items : ContentControls)
  : result (ContentControls * list jsstring * list jsstring) :=
  safeWordRun (fillFormTemplate_loop data items [] []).

(** The loop of [getControlValues]. *)
Fixpoint getControlValues_loop (items : ContentControls) (values : FormData) : FormData :=
  match items with
  | [] => values
  | control :: rest =>
      if truthy (ContentControl.tag control) then
        getControlValues_loop rest
          (FormData_set values (ContentControl.tag control) (ContentControl.text control))
      else getControlValues_loop rest values
  end.

(** [getControlValues()] *)
Definition getControlValues (items : ContentControls) : FormData :=
  getControlValues_loop items [].

(** [contentControls.items.find(c => c.tag === tag)] *)
Fixpoint find_by_tag (items : ContentControls) (tag : jsstring) : option ContentControl.t :=
  match items with
  | [] => None
  | c :: rest =>
      if jsstring_eqb (ContentControl.tag c) tag then Some c else find_by_tag rest tag
  end.

(** [findControlByTag(tag)]: the id and the text of the control found, or
    [null]. *)
Definition findControlByTag (items : ContentControls) (tag : jsstring)
  : option (Z * jsstring) :=
  match find_by_tag items tag with
  | Some found => Some (ContentControl.id found, ContentControl.text found)
  | None => None
  end.

(** ** Notions used in the statements on content controls *)

Definition tags_of (items : ContentControls) : list jsstring :=
  map ContentControl.tag items.

(** The tag marks an insertion point. *)
Definition is_insertion_point (control : ContentControl.t) : bool :=
  startsWith (ContentControl.tag control) (js "entity:").

(** The entity is in the library. *)
Definition stored (lib : EntityLibrary) (i : jsstring) : bool :=
  match getEntity lib i with
  | Some _ => true
  | None => false
  end.

(** The text of a control after [fillFormTemplate]. *)
Definition filled_control (data : FormData) (control : ContentControl.t) : ContentControl.t :=
  if truthy (ContentControl.tag control) then
    match FormData_get data (ContentControl.tag control) with
    | Own v => ContentControl.insertText control v
    | _ => control
    end
  else control.

(** No control would be given an inherited value. *)
Definition no_inherited_hit (data : FormData) (items : ContentControls) : bool :=
  forallb (fun control =>
             negb (truthy (ContentControl.tag control)) ||
             match FormData_get data (ContentControl.tag control) with
             | Inherited => false
             | _ => true
             end) items.

(** The tag of an insertion point without its first seven characters,
    [entity:]. *)
Definition entity_type (control : ContentControl.t) : jsstring :=
  skipn 7 (ContentControl.tag control).

(** One control after [resolveEntityInsertionPoints]. *)
Definition resolved_control (lib : EntityLibrary) (control : ContentControl.t)
  : ContentControl.t :=
  if is_insertion_point control then
    match getEntity lib (entity_type control) with
    | Some entity =>
        ContentControl.set_tag
          (ContentControl.insertText control (content entity))
          (js "resolved:" ++ entity_type control)
    | None => control
    end
  else control.

(** The ids of the items whose condition holds, in the order of the items. *)
Definition chosen (context : DocumentContext) (items : list ConditionalEntity.t)
  : list jsstring :=
  map ConditionalEntity.entityId
    (filter (fun item => ConditionalEntity.condition item context) items).

(** [data] has an own value under the key. *)
Definition has_value (data : FormData) (key : jsstring) : bool :=
  match FormData_get data key with
  | Own _ => true
  | _ => false
  end.

(** The tags that are not empty, in document order. *)
Definition named_tags (items : ContentControls) : list jsstring :=
  filter truthy (tags_of items).

(** Contexts and conditions of the examples. *)
Definition context_of (r : string) (sensitive : bool) : DocumentContext :=
  {| documentType := None; region := Some (js r); industry := None;
     hasSensitiveData := Some sensitive |}.

Definition in_region (r : string) (ctx : DocumentContext) : bool :=
  match region ctx with
  | Some x => jsstring_eqb x (js r)
  | None => false
  end.

Definition is_sensitive (ctx : DocumentContext) : bool :=
  match hasSensitiveData ctx with
  | Some b => b
  | None => false
  end.

Definition sample_conditions : list ConditionalEntity.t :=
  [ {| ConditionalEntity.entityId := js "governing-law";
       ConditionalEntity.condition := in_region "EU" |};
    {| ConditionalEntity.entityId := js "data-processing-agreement";
       ConditionalEntity.condition := is_sensitive |};
    {| ConditionalEntity.entityId := js "company-signature";
       ConditionalEntity.condition := fun _ => true |} ].

(** A control without tag, title and text. *)
Definition blank_control (i : Z) : ContentControl.t :=
  {| ContentControl.id := i; ContentControl.tag := []; ContentControl.title := [];
     ContentControl.text := []; ContentControl.placeholderText := [];
     ContentControl.appearance := ContentControl.boundingBox;
     ContentControl.color := []; ContentControl.type := ContentControl.richText;
     ContentControl.dropdownListValues := [] |}.

(** A control with a tag and a text. *)
Definition field (i : Z) (tag text : string) : ContentControl.t :=
  ContentControl.insertText (ContentControl.set_tag (blank_control i) (js tag)) (js text).

(** * Properties *)

(** ** Strings *)

Lemma jsstring_eqb_eq (a b : jsstring) : jsstring_eqb a b = true <-> a = b.
Proof.
  revert b; induction a as [|x a IH]; intros [|y b]; simpl; split; intros H;
    try reflexivity; try discriminate.
  - apply andb_true_iff in H as [Hx Hr].
    apply Ascii.eqb_eq in Hx. apply IH in Hr. now subst.
  - injection H as -> ->. rewrite Ascii.eqb_refl. simpl. now apply IH.
Qed.

Lemma jsstring_eqb_refl (a : jsstring) : jsstring_eqb a a = true.
Proof. now apply jsstring_eqb_eq. Qed.

Lemma jsstring_eqb_neq (a b : jsstring) : jsstring_eqb a b = false <-> a <> b.
Proof.
  split.
  - intros H E. apply jsstring_eqb_eq in E. congruence.
  - intros H. destruct (jsstring_eqb a b) eqn:E; [|reflexivity].
    apply jsstring_eqb_eq in E. contradiction.
Qed.

Lemma startsWith_app (s q : jsstring) :
  startsWith s q = true <-> exists rest, s = q ++ rest.
Proof.
  revert s; induction q as [|x q IH]; intros s; simpl.
  - split; [intros _; now exists s | reflexivity].
  - destruct s as [|y s].
    + split; [discriminate | intros [rest H]; discriminate].
    + rewrite andb_true_iff, Ascii.eqb_eq, IH. split.
      * intros [-> [rest ->]]. now exists rest.
      * intros [rest H]. injection H as -> ->. split; [reflexivity | now exists rest].
Qed.

Lemma includes_app (s q : jsstring) :
  includes s q = true <-> exists pre post, s = pre ++ q ++ post.
Proof.
  induction s as [|c s IH]; simpl.
  - rewrite orb_false_r, startsWith_app. split.
    + intros [rest H]. now exists [], rest.
    + intros [pre [post H]]. destruct pre; simpl in H.
      * now exists post.
      * discriminate.
  - rewrite orb_true_iff, IH, startsWith_app. split.
    + intros [[rest H] | [pre [post H]]].
      * now exists [], rest.
      * exists (c :: pre), post. simpl. now rewrite H.
    + intros [pre [post H]]. destruct pre as [|d pre]; simpl in H.
      * left. now exists post.
      * right. injection H as _ H. now exists pre, post.
Qed.


(** ** Map *)

Section JsMapFacts.

Variable V : Type.
Implicit Types (m : Map V) (k : jsstring) (v : V).

Lemma Map_get_set_same m k v : Map_get (Map_set m k v) k = Some v.
Proof.
  induction m as [|[k' v'] m IH]; simpl.
  - now rewrite jsstring_eqb_refl.
  - destruct (jsstring_eqb k' k) eqn:E; simpl; rewrite E; [reflexivity | exact IH].
Qed.

Lemma Map_get_set_other m k v k' :
  k' <> k -> Map_get (Map_set m k v) k' = Map_get m k'.
Proof.
  intros Hne. induction m as [|[k0 v0] m IH]; simpl.
  - apply jsstring_eqb_neq in Hne.
    destruct (jsstring_eqb k k') eqn:E; [|reflexivity].
    apply jsstring_eqb_eq in E. subst. now rewrite jsstring_eqb_refl in Hne.
  - destruct (jsstring_eqb k0 k) eqn:E; simpl.
    + apply jsstring_eqb_eq in E. subst k0.
      destruct (jsstring_eqb k k') eqn:E'; [|reflexivity].
      apply jsstring_eqb_eq in E'. now subst.
    + now rewrite IH.
Qed.

Lemma Map_get_none m k : Map_get m k = None <-> ~ In k (Map_keys m).
Proof.
  induction m as [|[k' v'] m IH]; simpl.
  - tauto.
  - destruct (jsstring_eqb k' k) eqn:E.
    + apply jsstring_eqb_eq in E. split; [discriminate | tauto].
    + apply jsstring_eqb_neq in E. rewrite IH. tauto.
Qed.

Lemma Map_get_in m k v : Map_get m k = Some v -> In (k, v) m.
Proof.
  induction m as [|[k' v'] m IH]; simpl; [discriminate|].
  destruct (jsstring_eqb k' k) eqn:E.
  - apply jsstring_eqb_eq in E. intros [= ->]. left. now subst.
  - intros H. right. now apply IH.
Qed.

Lemma Map_in_get m k v : NoDup (Map_keys m) -> In (k, v) m -> Map_get m k = Some v.
Proof.
  induction m as [|[k' v'] m IH]; simpl; [tauto|].
  intros Hnd [H | H].
  - injection H as -> ->. now rewrite jsstring_eqb_refl.
  - inversion Hnd as [|? ? Hnotin Hnd']; subst.
    destruct (jsstring_eqb k' k) eqn:E.
    + apply jsstring_eqb_eq in E. subst k'. exfalso. apply Hnotin.
      change k with (fst (k, v)). now apply in_map.
    + now apply IH.
Qed.

(** Setting a key that is absent appends the entry. *)
Lemma Map_set_new m k v : ~ In k (Map_keys m) -> Map_set m k v = m ++ [(k, v)].
Proof.
  induction m as [|[k' v'] m IH]; simpl; [reflexivity|].
  intros H. destruct (jsstring_eqb k' k) eqn:E.
  - apply jsstring_eqb_eq in E. tauto.
  - rewrite IH; tauto.
Qed.

(** Setting a key that is present leaves the keys and their order as they are. *)
Lemma Map_keys_set_present m k v : In k (Map_keys m) -> Map_keys (Map_set m k v) = Map_keys m.
Proof.
  induction m as [|[k' v'] m IH]; simpl; [tauto|].
  intros H. destruct (jsstring_eqb k' k) eqn:E; simpl; [reflexivity|].
  apply jsstring_eqb_neq in E. f_equal. apply IH. tauto.
Qed.

Lemma Map_set_length_present m k v :
  In k (Map_keys m) -> List.length (Map_set m k v) = List.length m.
Proof.
  intros H.
  rewrite <- (length_map fst (Map_set m k v)), <- (length_map fst m).
  change (map fst (Map_set m k v)) with (Map_keys (Map_set m k v)).
  change (map fst m) with (Map_keys m).
  now rewrite Map_keys_set_present.
Qed.

Lemma Map_set_NoDup m k v : NoDup (Map_keys m) -> NoDup (Map_keys (Map_set m k v)).
Proof.
  intros Hnd. destruct (in_dec (list_eq_dec ascii_dec) k (Map_keys m)) as [Hin | Hout].
  - now rewrite Map_keys_set_present.
  - rewrite Map_set_new by assumption. unfold Map_keys. rewrite map_app. simpl.
    apply NoDup_app; [assumption | repeat constructor; simpl; tauto | ].
    intros x Hx [<- | []]. contradiction.
Qed.

Lemma Map_set_Forall (P : jsstring * V -> Prop) m k v :
  Forall P m -> P (k, v) -> Forall P (Map_set m k v).
Proof.
  intros Hm Hkv. induction Hm as [|[k' v'] m Hx Hm IH]; simpl.
  - now constructor.
  - destruct (jsstring_eqb k' k) eqn:E.
    + apply jsstring_eqb_eq in E. subst k'. now constructor.
    + now constructor.
Qed.

Lemma Map_values_in m v : In v (Map_values m) <-> exists k, In (k, v) m.
Proof.
  unfold Map_values. rewrite in_map_iff. split.
  - intros [[k v'] [E H]]. simpl in E. subst. now exists k.
  - intros [k H]. now exists (k, v).
Qed.

End JsMapFacts.

(** ** The library *)

Lemma well_keyed_empty : well_keyed empty_library.
Proof. split; constructor. Qed.

Lemma well_keyed_register lib e : well_keyed lib -> well_keyed (register lib e).
Proof.
  intros [Hnd Hid]. split; simpl.
  - now apply Map_set_NoDup.
  - now apply Map_set_Forall.
Qed.

Lemma well_keyed_loadDefaultEntities es lib :
  well_keyed lib -> well_keyed (loadDefaultEntities es lib).
Proof.
  revert lib. induction es as [|e es IH]; intros lib H; simpl; [exact H|].
  apply IH. now apply well_keyed_register.
Qed.

Lemma well_keyed_registered es : well_keyed (registered es).
Proof. apply well_keyed_loadDefaultEntities, well_keyed_empty. Qed.

(** In a well keyed library the stored entities are found under their ids. *)
Lemma well_keyed_getEntity lib e :
  well_keyed lib -> In e (Map_values (entities lib)) -> getEntity lib (id e) = Some e.
Proof.
  intros [Hnd Hid] Hin. apply Map_values_in in Hin as [k Hin].
  rewrite Forall_forall in Hid. specialize (Hid _ Hin). simpl in Hid. subst k.
  now apply Map_in_get.
Qed.

Lemma getEntity_id lib i e : well_keyed lib -> getEntity lib i = Some e -> id e = i.
Proof.
  intros [_ Hid] H. apply Map_get_in in H.
  rewrite Forall_forall in Hid. exact (Hid _ H).
Qed.

(** Entities with pairwise distinct ids are stored one after the other. *)
Lemma loadDefaultEntities_distinct es lib :
  NoDup (Map_keys (entities lib) ++ map id es) ->
  entities (loadDefaultEntities es lib) = entities lib ++ map (fun e => (id e, e)) es.
Proof.
  revert lib. induction es as [|e es IH]; intros lib Hnd; simpl.
  - now rewrite app_nil_r.
  - assert (Hout : ~ In (id e) (Map_keys (entities lib))).
    { intros Hin. apply NoDup_remove_2 in Hnd. apply Hnd, in_or_app. now left. }
    rewrite IH; simpl.
    + rewrite Map_set_new by exact Hout. now rewrite <- app_assoc.
    + rewrite Map_set_new by exact Hout. unfold Map_keys. rewrite map_app. simpl.
      rewrite <- app_assoc. exact Hnd.
Qed.

Lemma registered_distinct es :
  NoDup (map id es) -> Map_values (entities (registered es)) = es.
Proof.
  intros Hnd. unfold registered. rewrite loadDefaultEntities_distinct by exact Hnd.
  simpl. unfold Map_values. rewrite map_map. simpl. apply map_id.
Qed.

(** The library is not an output of [insertEntityWithFields]. *)
Lemma insertEntityWithFields_library ewf w :
  library (snd (insertEntityWithFields ewf w)) = library w.
Proof.
  unfold insertEntityWithFields.
  destruct (getEntity (library w) (entityId ewf)); [|reflexivity].
  destruct (safeWordRun _); reflexivity.
Qed.

(** C5: storing an entity under an id that is present overwrites the entry.
    When the library holds [E1] under the id of [E2], then after storing [E2]
    the id is answered with [E2], the keys and their order are as before,
    and [E1], if it differs from [E2], is no longer among the stored
    entities. *)
Theorem register_last_write_wins (es : list StandardEntity) (E1 E2 : StandardEntity) :
  getEntity (registered es) (id E2) = Some E1 ->
  getEntity (register (registered es) E2) (id E2) = Some E2 /\
  Map_keys (entities (register (registered es) E2)) = Map_keys (entities (registered es)) /\
  (E1 <> E2 -> ~ In E1 (Map_values (entities (register (registered es) E2)))).
Proof.
  intros Hget. pose proof (well_keyed_registered es) as Hwk.
  split; [apply Map_get_set_same|]. split.
  - apply Map_keys_set_present. unfold getEntity in Hget.
    destruct (in_dec (list_eq_dec ascii_dec) (id E2) (Map_keys (entities (registered es))))
      as [Hin | Hout]; [exact Hin|].
    apply Map_get_none in Hout. congruence.
  - intros Hne Hin.
    pose proof (getEntity_id _ _ _ Hwk Hget) as Hid.
    apply (well_keyed_getEntity _ _ (well_keyed_register _ E2 Hwk)) in Hin.
    rewrite Hid in Hin. unfold getEntity, register in Hin. simpl in Hin.
    rewrite Map_get_set_same in Hin. congruence.
Qed.

Lemma register_last_write_wins_witness :
  getEntity (registered defaults) (id governing_law_v3) = Some governing_law /\
  getEntity (register (registered defaults) governing_law_v3) (id governing_law_v3)
  = Some governing_law_v3 /\
  ~ In governing_law (Map_values (entities (register (registered defaults) governing_law_v3))).
Proof.
  pose proof (register_last_write_wins defaults governing_law governing_law_v3 eq_refl)
    as [Hget [_ Hgone]].
  split; [reflexivity|]. split; [exact Hget|].
  apply Hgone. discriminate.
Defined.

(** C6: for an id that is not a key of the map, [getEntity] returns
    [undefined] (here [None]), an ordinary value of its result type. *)
Theorem getEntity_absent (lib : EntityLibrary) (i : jsstring) :
  ~ In i (Map_keys (entities lib)) -> getEntity lib i = None.
Proof. intros H. now apply Map_get_none. Qed.

Lemma getEntity_absent_witness :
  ~ In (js "nonexistent") (Map_keys (entities new_EntityLibrary)) /\
  getEntity new_EntityLibrary (js "nonexistent") = None.
Proof.
  assert (H : ~ In (js "nonexistent") (Map_keys (entities new_EntityLibrary)))
    by (vm_compute; intuition discriminate).
  split; [exact H|].
  exact (getEntity_absent new_EntityLibrary (js "nonexistent") H).
Defined.

(** C7: every entity stored in a library built by storing entities into an
    empty map is returned unchanged by [getEntity] at its id; and a call of
    [insertEntityWithFields], whatever its result, leaves the library as it
    was, so the same entity is returned after it. *)
Theorem getEntity_roundtrip (es : list StandardEntity) (e : StandardEntity) :
  In e (Map_values (entities (registered es))) ->
  getEntity (registered es) (id e) = Some e /\
  forall (ewf : EntityWithFields) (sel : jsstring),
    let w := {| library := registered es; selection := sel |} in
    library (snd (insertEntityWithFields ewf w)) = registered es /\
    getEntity (library (snd (insertEntityWithFields ewf w))) (id e) = Some e.
Proof.
  intros Hin.
  assert (Hget : getEntity (registered es) (id e) = Some e)
    by (apply well_keyed_getEntity; [apply well_keyed_registered | exact Hin]).
  split; [exact Hget|]. intros ewf sel w.
  rewrite insertEntityWithFields_library. now split.
Qed.

Lemma getEntity_roundtrip_witness :
  In governing_law (Map_values (entities (registered defaults))) /\
  getEntity (registered defaults) (id governing_law) = Some governing_law /\
  selection (snd (insertEntityWithFields delaware
                    {| library := registered defaults; selection := [] |}))
  = js "This Agreement shall be governed by and construed in accordance with the laws of the State of Delaware." /\
  getEntity
    (library (snd (insertEntityWithFields delaware
                     {| library := registered defaults; selection := [] |})))
    (id governing_law)
  = Some governing_law.
Proof.
  assert (Hin : In governing_law (Map_values (entities (registered defaults))))
    by (simpl; right; left; reflexivity).
  pose proof (getEntity_roundtrip defaults governing_law Hin) as [Hget Hafter].
  split; [exact Hin|]. split; [exact Hget|]. split; [reflexivity|].
  exact (proj2 (Hafter delaware [])).
Defined.

(** C8: [getByCategory c] holds exactly the stored entities whose category
    is [c]; storing an entity under a new id puts it behind all entities
    stored before; and when entities with pairwise distinct ids have been
    stored in the order [es], the result is the sublist of [es] with
    category [c], in the order of [es]. *)
Theorem getByCategory_exact (c : jsstring) :
  (forall lib e,
      In e (getByCategory lib c) <->
      In e (Map_values (entities lib)) /\ category e = c) /\
  (forall lib e,
      ~ In (id e) (Map_keys (entities lib)) ->
      getByCategory (register lib e) c
      = getByCategory lib c ++ (if jsstring_eqb (category e) c then [e] else [])) /\
  (forall es,
      NoDup (map id es) ->
      getByCategory (registered es) c
      = filter (fun e => jsstring_eqb (category e) c) es).
Proof.
  split; [|split].
  - intros lib e. unfold getByCategory. rewrite filter_In, jsstring_eqb_eq. tauto.
  - intros lib e Hnew. unfold getByCategory, register. simpl.
    rewrite Map_set_new by exact Hnew. unfold Map_values.
    now rewrite map_app, filter_app.
  - intros es Hnd. unfold getByCategory. now rewrite registered_distinct.
Qed.

Lemma getByCategory_exact_witness :
  NoDup (map id unsorted_samples) /\
  getByCategory (registered unsorted_samples) (js "footer")
  = [sample "zeta" "footer"; sample "alpha" "footer"] /\
  getByCategory (register (registered unsorted_samples) (sample "beta" "footer"))
    (js "footer")
  = [sample "zeta" "footer"; sample "alpha" "footer"; sample "beta" "footer"].
Proof.
  assert (Hnd : NoDup (map id unsorted_samples))
    by (repeat constructor; simpl; intuition discriminate).
  assert (Hnew : ~ In (id (sample "beta" "footer"))
                   (Map_keys (entities (registered unsorted_samples))))
    by (vm_compute; intuition discriminate).
  pose proof (getByCategory_exact (js "footer")) as [_ [Happend Hfilter]].
  split; [exact Hnd|]. split.
  - rewrite (Hfilter unsorted_samples Hnd). reflexivity.
  - rewrite (Happend _ _ Hnew), (Hfilter unsorted_samples Hnd). reflexivity.
Defined.

(** ** search *)

Lemma toLowerCase_app (a b : jsstring) :
  toLowerCase (a ++ b) = toLowerCase a ++ toLowerCase b.
Proof. apply map_app. Qed.








(** ** The expression of a key without syntax characters *)

Lemma tokenize_plain_char (c : ascii) (rest : jsstring) :
  syntax_character c = false ->
  tokenize (c :: rest) = TAtom (Lit c) :: tokenize rest.
Proof.
  intros H. pose proof H as Hs. unfold syntax_character, js in H. simpl in H.
  repeat (apply orb_false_iff in H; destruct H as [? H]).
  simpl. now repeat match goal with
             | E : Ascii.eqb c _ = false |- _ => rewrite E; clear E
             end; rewrite Hs.
Qed.

Lemma tokenize_plain (k rest : jsstring) :
  plain_key k = true ->
  tokenize (k ++ rest) = map (fun c => TAtom (Lit c)) k ++ tokenize rest.
Proof.
  induction k as [|c k IH]; intros H; [reflexivity|].
  simpl in H. apply andb_true_iff in H as [Hc Hk].
  apply negb_true_iff in Hc.
  change ((c :: k) ++ rest) with (c :: (k ++ rest)).
  rewrite tokenize_plain_char by exact Hc. simpl. now rewrite IH.
Qed.

Lemma tokenize_placeholder_pattern (k : jsstring) :
  plain_key k = true ->
  tokenize (placeholder_pattern k) = map (fun c => TAtom (Lit c)) (token_of k).
Proof.
  intros H. unfold placeholder_pattern, token_of.
  change (js "\[" ++ k ++ js "\]") with ("\"%char :: "["%char :: (k ++ js "\]")).
  change (js "[" ++ k ++ js "]") with ("["%char :: (k ++ js "]")).
  cbn [tokenize]. change (Ascii.eqb "\" "\") with true. cbv iota.
  change (syntax_character "[" || Ascii.eqb "[" "/") with true. cbv iota.
  rewrite tokenize_plain by exact H. simpl. now rewrite map_app.
Qed.

Lemma parse_literal (s : jsstring) :
  parse (map (fun c => TAtom (Lit c)) s) = Compiled (literal_RegExp s).
Proof.
  induction s as [|c s IH]; [reflexivity|].
  change (map (fun c => TAtom (Lit c)) (c :: s))
    with (TAtom (Lit c) :: map (fun c => TAtom (Lit c)) s).
  cbn [parse].
  replace (match map (fun c0 => TAtom (Lit c0)) s with
           | TStar :: rest' =>
               if is_question rest' then PatternOutOfModel
               else add_term (Lit c, Star) (parse rest')
           | TPlus :: rest' =>
               if is_question rest' then PatternOutOfModel
               else add_term (Lit c, Plus) (parse rest')
           | TQuestion :: rest' =>
               if is_question rest' then PatternOutOfModel
               else add_term (Lit c, Opt) (parse rest')
           | _ => add_term (Lit c, One) (parse (map (fun c0 => TAtom (Lit c0)) s))
           end)
    with (add_term (Lit c, One) (parse (map (fun c0 => TAtom (Lit c0)) s)))
    by (destruct s; reflexivity).
  now rewrite IH.
Qed.

Lemma no_other_in_literal (s : jsstring) :
  existsb is_other (map (fun c => TAtom (Lit c)) s) = false.
Proof. induction s; simpl; auto. Qed.

(** For a key without syntax characters the expression matches the token of
    the key, character by character. *)
Lemma new_RegExp_plain (k : jsstring) :
  plain_key k = true ->
  new_RegExp (placeholder_pattern k) = Compiled (literal_RegExp (token_of k)).
Proof.
  intros H. unfold new_RegExp.
  rewrite tokenize_placeholder_pattern by exact H.
  now rewrite no_other_in_literal, parse_literal.
Qed.

Lemma match_terms_literal_app (t rest : jsstring) :
  match_terms (literal t) (t ++ rest) = Some (t, rest).
Proof.
  induction t as [|c t IH]; simpl; [reflexivity|].
  now rewrite Ascii.eqb_refl, IH.
Qed.

Lemma match_terms_literal_none (t s : jsstring) :
  startsWith s t = false -> match_terms (literal t) s = None.
Proof.
  revert s. induction t as [|c t IH]; intros s H; simpl in *; [discriminate|].
  destruct s as [|d s]; [reflexivity|].
  destruct (Ascii.eqb c d) eqn:E; [|reflexivity].
  simpl in H. now rewrite IH.
Qed.

Lemma match_at_literal_app (t rest : jsstring) :
  match_at (literal_RegExp t) (t ++ rest) = Some (t, rest).
Proof. unfold match_at. simpl. now rewrite match_terms_literal_app. Qed.

Lemma match_at_literal_none (t s : jsstring) :
  startsWith s t = false -> match_at (literal_RegExp t) s = None.
Proof. intros H. unfold match_at. simpl. now rewrite match_terms_literal_none. Qed.

(** ** Replacement by a value without dollar sign *)

Lemma GetSubstitution_dollar_free (m b a v : jsstring) :
  dollar_free v = true -> GetSubstitution m b a v = v.
Proof.
  induction v as [|c v IH]; intros H; simpl in *; [reflexivity|].
  apply andb_true_iff in H as [Hc Hv]. apply negb_true_iff in Hc.
  rewrite Hc. now rewrite IH.
Qed.

Lemma replace_scan_skip (r : RegExp) (v x rest seen : jsstring) :
  replace_scan r v seen (x ++ rest) (List.length x)
  = replace_scan r v (rev x ++ seen) rest 0.
Proof.
  revert seen. induction x as [|c x IH]; intros seen; [reflexivity|].
  simpl. rewrite IH. now rewrite <- app_assoc.
Qed.

Lemma replace_scan_seen (r : RegExp) (v : jsstring) :
  dollar_free v = true ->
  forall s k seen seen', replace_scan r v seen s k = replace_scan r v seen' s k.
Proof.
  intros Hv. induction s as [|c s IH]; intros k seen seen'.
  - destruct k; simpl; [|reflexivity].
    destruct (match_at r []) as [[t rest]|]; [|reflexivity].
    now rewrite !GetSubstitution_dollar_free.
  - destruct k; simpl.
    + destruct (match_at r (c :: s)) as [[t rest]|].
      * rewrite !GetSubstitution_dollar_free by exact Hv.
        destruct t; f_equal; [f_equal|]; apply IH.
      * f_equal. apply IH.
    + apply IH.
Qed.

(** ** One turn of the loop, for a key without syntax characters *)

Lemma startsWith_cons (c d : ascii) (s t : jsstring) :
  startsWith (c :: s) (d :: t) = Ascii.eqb d c && startsWith s t.
Proof. reflexivity. Qed.

Lemma token_of_cons (K : jsstring) : token_of K = "["%char :: (K ++ ["]"%char]).
Proof. reflexivity. Qed.

Section OneKey.

Variables K v : jsstring.
Hypothesis K_brackets : bracket_free K = true.
Hypothesis v_dollar : dollar_free v = true.

Lemma replace_token_nil : replace_token K v [] = [].
Proof. reflexivity. Qed.

(** At an occurrence of the token the value is written and the scan goes on
    behind the occurrence. *)
Lemma replace_token_hit (rest : jsstring) :
  replace_token K v (token_of K ++ rest) = v ++ replace_token K v rest.
Proof.
  unfold replace_token, String_replace.
  change (token_of K ++ rest) with ("["%char :: ((K ++ js "]") ++ rest)) at 1.
  cbn [replace_scan].
  change ("["%char :: ((K ++ js "]") ++ rest)) with (token_of K ++ rest).
  rewrite match_at_literal_app.
  rewrite GetSubstitution_dollar_free by exact v_dollar.
  change (token_of K) with ("["%char :: (K ++ js "]")). cbn iota.
  rewrite replace_scan_skip.
  f_equal. now apply replace_scan_seen.
Qed.

(** Elsewhere the character is copied. *)
Lemma replace_token_miss (c : ascii) (s : jsstring) :
  startsWith (c :: s) (token_of K) = false ->
  replace_token K v (c :: s) = c :: replace_token K v s.
Proof.
  intros H. unfold replace_token, String_replace. cbn [replace_scan].
  rewrite match_at_literal_none by exact H.
  f_equal. now apply replace_scan_seen.
Qed.

Lemma replace_token_no_open (x s : jsstring) :
  ~ In "["%char x -> replace_token K v (x ++ s) = x ++ replace_token K v s.
Proof.
  induction x as [|c x IH]; intros H; [reflexivity|].
  simpl. rewrite replace_token_miss.
  - f_equal. apply IH. intros Hin. apply H. now right.
  - rewrite token_of_cons, startsWith_cons.
    destruct (Ascii.eqb "[" c) eqn:E; [|reflexivity].
    apply Ascii.eqb_eq in E. exfalso. apply H. now left.
Qed.

End OneKey.

Lemma bracket_free_no_open (B : jsstring) :
  bracket_free B = true -> ~ In "["%char (B ++ js "]").
Proof.
  intros H Hin. apply in_app_or in Hin as [Hin | Hin].
  - unfold bracket_free in H. rewrite forallb_forall in H.
    specialize (H _ Hin). discriminate.
  - simpl in Hin. destruct Hin as [E | []]. discriminate.
Qed.

Lemma bracket_free_closes (K B x y : jsstring) :
  bracket_free K = true -> bracket_free B = true ->
  K ++ "]"%char :: x = B ++ "]"%char :: y -> K = B.
Proof.
  revert B. induction K as [|k K IH]; intros [|b B] HK HB E; simpl in *.
  - reflexivity.
  - injection E as <- _. discriminate.
  - injection E as -> _. discriminate.
  - injection E as -> E. apply andb_true_iff in HK as [_ HK].
    apply andb_true_iff in HB as [_ HB]. f_equal. now apply IH.
Qed.

Lemma plain_key_bracket_free (K : jsstring) :
  plain_key K = true -> bracket_free K = true.
Proof.
  unfold plain_key, bracket_free. rewrite !forallb_forall. intros H c Hc.
  specialize (H c Hc). apply negb_true_iff in H. apply negb_true_iff.
  unfold syntax_character, js in H. simpl in H.
  repeat (apply orb_false_iff in H; destruct H as [? H]).
  apply orb_false_iff. now split.
Qed.

Lemma startsWith_app_l (s t z : jsstring) :
  startsWith s t = true -> startsWith (s ++ z) t = true.
Proof.
  rewrite !startsWith_app. intros [rest ->]. exists (rest ++ z). now rewrite app_assoc.
Qed.

(** An occurrence of the token that begins before an opening bracket ends
    before it. *)
Lemma starts_before_open (K pre y : jsstring) :
  bracket_free K = true ->
  pre <> [] ->
  startsWith (pre ++ "["%char :: y) (token_of K) = true ->
  startsWith pre (token_of K) = true.
Proof.
  intros HK Hpre H. apply startsWith_app in H as [rest H].
  apply startsWith_app.
  apply app_eq_app in H as [l [[H1 H2] | [H1 H2]]].
  - exists l. exact H1.
  - destruct l as [|c l].
    + exists []. rewrite app_nil_r in H1. now rewrite H1, app_nil_r.
    + exfalso. simpl in H2. injection H2 as <- _.
      destruct pre as [|p pre]; [now apply Hpre|].
      rewrite token_of_cons in H1. simpl in H1. injection H1 as _ H1.
      apply (bracket_free_no_open K HK). unfold js. simpl. rewrite H1.
      apply in_or_app. right. now left.
Qed.

(** One turn of the loop passes over a bracketed token and works on the text
    before it and on the text behind it separately: the token of the key is
    replaced by the value, every other token is kept. *)
Lemma replace_token_split (K v B : jsstring) :
  bracket_free K = true -> dollar_free v = true -> bracket_free B = true ->
  forall pre post,
    replace_token K v (pre ++ token_of B ++ post)
    = replace_token K v pre
      ++ (if jsstring_eqb K B then v else token_of B)
      ++ replace_token K v post.
Proof.
  intros HK Hv HB pre post.
  remember (List.length pre) as n eqn:Hn.
  assert (Hle : List.length pre <= n) by lia. clear Hn.
  revert pre Hle. induction n as [|n IH]; intros pre Hle.
  - destruct pre; [|simpl in Hle; lia].
    simpl. destruct (jsstring_eqb K B) eqn:E.
    + apply jsstring_eqb_eq in E. subst B. now apply replace_token_hit.
    + change (token_of B ++ post) with ("["%char :: ((B ++ js "]") ++ post)).
      rewrite replace_token_miss; [| exact Hv |].
      * rewrite replace_token_no_open; [| exact Hv | now apply bracket_free_no_open].
        unfold token_of. simpl. now rewrite <- app_assoc.
      * destruct (startsWith _ _) eqn:S; [|reflexivity].
        apply startsWith_app in S as [rest S]. unfold token_of in S. simpl in S.
        injection S as S. rewrite <- !app_assoc in S. simpl in S.
        symmetry in S. apply (bracket_free_closes _ _ _ _ HK HB) in S.
        apply jsstring_eqb_neq in E. contradiction.
  - destruct pre as [|c pre].
    + apply IH. simpl. lia.
    + destruct (startsWith ((c :: pre) ++ token_of B ++ post) (token_of K)) eqn:S.
      * apply (starts_before_open K (c :: pre) ((B ++ js "]") ++ post) HK) in S;
          [|discriminate].
        apply startsWith_app in S as [pre' S]. rewrite S.
        rewrite <- app_assoc.
        rewrite !replace_token_hit by assumption.
        rewrite IH.
        -- now rewrite <- app_assoc.
        -- apply (f_equal (@List.length _)) in S. rewrite length_app in S.
           unfold token_of in S. simpl in S, Hle. lia.
      * simpl in S |- *. rewrite replace_token_miss by assumption.
        rewrite (replace_token_miss K v Hv c pre).
        -- rewrite IH by (simpl in Hle; lia). reflexivity.
        -- destruct (startsWith (c :: pre) (token_of K)) eqn:S'; [|reflexivity].
           apply (startsWith_app_l _ _ (token_of B ++ post)) in S'.
           simpl in S'. congruence.
Qed.

(** ** The loop, for keys without syntax characters *)

Lemma resolvePlaceholders_plain (entries : list (jsstring * jsstring)) (s : jsstring) :
  forallb plain_key (keys_of entries) = true ->
  resolvePlaceholders s entries = Ok (replace_tokens s entries).
Proof.
  revert s. induction entries as [|[K v] entries IH]; intros s H; [reflexivity|].
  simpl in H. apply andb_true_iff in H as [HK H].
  simpl. rewrite new_RegExp_plain by exact HK. now rewrite IH.
Qed.

Lemma replace_tokens_cons (s K v : jsstring) (entries : list (jsstring * jsstring)) :
  replace_tokens s ((K, v) :: entries) = replace_tokens (replace_token K v s) entries.
Proof. reflexivity. Qed.

Lemma replace_tokens_app (s : jsstring) (a b : list (jsstring * jsstring)) :
  replace_tokens s (a ++ b) = replace_tokens (replace_tokens s a) b.
Proof. apply fold_left_app. Qed.

(** X1: for keys without syntax characters the loop never throws: it
    returns a text. *)
Lemma resolvePlaceholders_plain_total (entries : list (jsstring * jsstring)) (s : jsstring) :
  forallb plain_key (keys_of entries) = true ->
  exists out, resolvePlaceholders s entries = Ok out.
Proof. intros H. eexists. now apply resolvePlaceholders_plain. Qed.

(** A token whose key is not among the entries is kept, and the text before
    it and the text behind it are rewritten separately. *)
Lemma replace_tokens_keeps (B : jsstring) (entries : list (jsstring * jsstring)) :
  bracket_free B = true ->
  forallb plain_key (keys_of entries) = true ->
  forallb dollar_free (values_of entries) = true ->
  ~ In B (keys_of entries) ->
  forall pre post,
    replace_tokens (pre ++ token_of B ++ post) entries
    = replace_tokens pre entries ++ token_of B ++ replace_tokens post entries.
Proof.
  intros HB. induction entries as [|[K v] entries IH]; intros Hk Hv Hout pre post;
    [reflexivity|].
  simpl in Hk, Hv, Hout. apply andb_true_iff in Hk as [HK Hk].
  apply andb_true_iff in Hv as [Hv0 Hv].
  rewrite !replace_tokens_cons.
  rewrite (replace_token_split K v B (plain_key_bracket_free K HK) Hv0 HB).
  assert (E : jsstring_eqb K B = false) by (apply jsstring_eqb_neq; tauto).
  rewrite E. apply IH; tauto.
Qed.

(** X2: for keys without syntax characters and values without dollar sign, a
    bracketed token whose key is not among the entries stands in the result
    as it stood in the content, and the text before it and the text behind it
    are rewritten as they would be alone. *)
Lemma resolvePlaceholders_keeps_unmapped
  (B : jsstring) (entries : list (jsstring * jsstring)) (pre post : jsstring) :
  bracket_free B = true ->
  forallb plain_key (keys_of entries) = true ->
  forallb dollar_free (values_of entries) = true ->
  ~ In B (keys_of entries) ->
  resolvePlaceholders (pre ++ token_of B ++ post) entries
  = Ok (replace_tokens pre entries ++ token_of B ++ replace_tokens post entries).
Proof.
  intros HB Hk Hv Hout. rewrite resolvePlaceholders_plain by exact Hk.
  now rewrite replace_tokens_keeps.
Qed.

(** Every occurrence of the token of a key is intact when the turn of the
    key comes, and is replaced by the value in that turn. *)
Lemma replace_tokens_replaces
  (K v : jsstring) (before : list (jsstring * jsstring)) (pre post : jsstring) :
  forallb plain_key (keys_of (before ++ [(K, v)])) = true ->
  forallb dollar_free (values_of (before ++ [(K, v)])) = true ->
  ~ In K (keys_of before) ->
  replace_tokens (pre ++ token_of K ++ post) (before ++ [(K, v)])
  = replace_tokens pre (before ++ [(K, v)]) ++ v
    ++ replace_tokens post (before ++ [(K, v)]).
Proof.
  intros Hk Hv Hout. unfold keys_of, values_of in Hk, Hv.
  rewrite map_app, forallb_app in Hk, Hv. simpl in Hk, Hv.
  apply andb_true_iff in Hk as [Hkb HK]. apply andb_true_iff in Hv as [Hvb Hv].
  rewrite andb_true_r in HK, Hv.
  pose proof (plain_key_bracket_free K HK) as HB.
  rewrite !replace_tokens_app.
  rewrite (replace_tokens_keeps K before HB Hkb Hvb Hout).
  change (replace_tokens ?x [(K, v)]) with (replace_token K v x).
  rewrite (replace_token_split K v K HB Hv HB).
  now rewrite jsstring_eqb_refl.
Qed.

(** X3: for keys without syntax characters, pairwise distinct up to the key
    [K], and values without dollar sign: the loop up to the turn of [K] puts
    the value of [K] in place of an occurrence of its token, rewrites the
    text before and behind it as it would alone, and the later entries work
    on that text. *)
Lemma resolvePlaceholders_replaces_mapped
  (K v : jsstring) (before after : list (jsstring * jsstring)) (pre post : jsstring) :
  forallb plain_key (keys_of (before ++ [(K, v)])) = true ->
  forallb dollar_free (values_of (before ++ [(K, v)])) = true ->
  ~ In K (keys_of before) ->
  resolvePlaceholders (pre ++ token_of K ++ post) (before ++ (K, v) :: after)
  = resolvePlaceholders
      (replace_tokens pre (before ++ [(K, v)]) ++ v
       ++ replace_tokens post (before ++ [(K, v)]))
      after.
Proof.
  intros Hk Hv Hout.
  rewrite <- (replace_tokens_replaces K v before pre post Hk Hv Hout).
  generalize (pre ++ token_of K ++ post). intros s.
  change (before ++ (K, v) :: after) with (before ++ [(K, v)] ++ after).
  rewrite app_assoc. generalize dependent (before ++ [(K, v)]). clear.
  intros l Hk _. revert s.
  induction l as [|[K0 v0] l IH]; intros s; [reflexivity|].
  simpl in Hk. apply andb_true_iff in Hk as [HK Hk].
  simpl. rewrite new_RegExp_plain by exact HK.
  rewrite IH by exact Hk. reflexivity.
Qed.

(** ** The loop at keys with syntax characters and values with dollar signs *)

(** C1 at concrete inputs.  With the key A both occurrences of its token are
    replaced.  With the key A+ the expression is [\[A+\]], which matches an
    opening bracket, one or more A and a closing bracket: neither occurrence
    of the token [[A+]] is replaced, and the content comes back as it was. *)
Theorem key_with_plus_not_replaced :
  resolvePlaceholders (js "[A] and [A] again") [(js "A", js "X")]
  = Ok (js "X and X again") /\
  new_RegExp (placeholder_pattern (js "A+"))
  = Compiled {| disjunction :=
                  [[(Lit "[", One); (Lit "A", Plus); (Lit "]", One)]] |} /\
  resolvePlaceholders (js "[A+] and [A+] again") [(js "A+", js "X")]
  = Ok (js "[A+] and [A+] again").
Proof. repeat split; reflexivity. Qed.

(** C2 at concrete inputs.  With the key A the token [[B]] is kept.  With
    the key C++ the expression [\[C++\]] has a quantifier with nothing to
    repeat: [new RegExp] throws a SyntaxError, and [insertEntityWithFields]
    fails with the DocumentError that wraps it.  With the key [.] the
    expression [\[.\]] matches the tokens [[A]] and [[B]], whose keys are
    not in the mapping, and both are replaced. *)
Theorem unmapped_token_and_failure :
  resolvePlaceholders (js "[A] [B]") [(js "A", js "X")] = Ok (js "X [B]") /\
  new_RegExp (placeholder_pattern (js "C++")) = PatternSyntaxError /\
  resolvePlaceholders (js "[A] [B]") [(js "C++", js "X")] = Throws SyntaxError /\
  (forall sel,
      fst (insertEntityWithFields
             {| entityId := js "governing-law"; fieldValues := [(js "C++", js "X")] |}
             {| library := new_EntityLibrary; selection := sel |})
      = Throws (DocumentError (js "Failed to execute Word operation") SyntaxError)) /\
  resolvePlaceholders (js "[A] [B]") [(js ".", js "X")] = Ok (js "X X").
Proof. repeat split; reflexivity. Qed.

(** C3 at concrete inputs.  The key A.B replaces the text [[AxB]], which is
    not its token.  The value [$&] writes the matched token back, and the
    value [$$5] writes [$5]. *)
Theorem replacement_not_textual :
  resolvePlaceholders (js "[AxB] [A.B]") [(js "A.B", js "X")] = Ok (js "X X") /\
  resolvePlaceholders (js "Dear [A]") [(js "A", js "$&")] = Ok (js "Dear [A]") /\
  resolvePlaceholders (js "Fee: [PRICE]") [(js "PRICE", js "$$5")] = Ok (js "Fee: $5").
Proof. repeat split; reflexivity. Qed.

(** C10: the loop rewrites the content one key after the other, each key
    working on the result of the keys before it.  For the default entity
    company-signature, the value of AUTHORIZED_NAME brings in the token of
    AUTHORIZED_TITLE; when AUTHORIZED_TITLE comes later, that token is
    replaced as well, and when it comes first, the token stays: the two
    orders of the same two entries give different texts. *)
Theorem substitution_is_sequential :
  (forall s K v rest,
      resolvePlaceholders s ((K, v) :: rest)
      = match new_RegExp (placeholder_pattern K) with
        | Compiled r => resolvePlaceholders (String_replace s r v) rest
        | PatternSyntaxError => Throws SyntaxError
        | PatternOutOfModel => OutOfModel
        end) /\
  exists (e : StandardEntity) (K1 v1 K2 v2 : jsstring),
    getEntity new_EntityLibrary (id e) = Some e /\
    v1 = token_of K2 /\
    resolvePlaceholders (content e) [(K1, v1); (K2, v2)]
    = Ok (js "ACME CORPORATION

By: _______________________
Name: CEO
Title: CEO") /\
    resolvePlaceholders (content e) [(K2, v2); (K1, v1)]
    = Ok (js "ACME CORPORATION

By: _______________________
Name: [AUTHORIZED_TITLE]
Title: CEO") /\
    Permutation [(K1, v1); (K2, v2)] [(K2, v2); (K1, v1)].
Proof.
  split; [reflexivity|].
  exists company_signature, (js "AUTHORIZED_NAME"), (js "[AUTHORIZED_TITLE]"),
    (js "AUTHORIZED_TITLE"), (js "CEO").
  repeat split; try reflexivity. apply perm_swap.
Qed.

(** * Further properties of the placeholder loop *)

Lemma match_at_literal_nil (K : jsstring) :
  match_at (literal_RegExp (token_of K)) [] = None.
Proof. reflexivity. Qed.

(** Where the token does not occur, a turn of the loop copies the text,
    whatever the value is. *)
Lemma replace_scan_absent (K v : jsstring) (s seen : jsstring) :
  includes s (token_of K) = false ->
  replace_scan (literal_RegExp (token_of K)) v seen s 0 = s.
Proof.
  revert seen. induction s as [|c s IH]; intros seen H.
  - reflexivity.
  - cbn [includes] in H. apply orb_false_iff in H as [Hhere Hlater].
    cbn [replace_scan]. rewrite match_at_literal_none by exact Hhere.
    f_equal. now apply IH.
Qed.

Lemma replace_token_absent (K v s : jsstring) :
  includes s (token_of K) = false -> replace_token K v s = s.
Proof. apply replace_scan_absent. Qed.

Lemma replace_tokens_absent (s : jsstring) (entries : list (jsstring * jsstring)) :
  forallb (fun K => negb (includes s (token_of K))) (keys_of entries) = true ->
  replace_tokens s entries = s.
Proof.
  induction entries as [|[K v] entries IH]; intros H; [reflexivity|].
  simpl in H. apply andb_true_iff in H as [HK H]. apply negb_true_iff in HK.
  rewrite replace_tokens_cons, replace_token_absent by exact HK. now apply IH.
Qed.

(** X4: keys whose tokens do not occur in the content leave it as it is. *)
Theorem resolvePlaceholders_no_token (s : jsstring) (entries : list (jsstring * jsstring)) :
  forallb plain_key (keys_of entries) = true ->
  forallb (fun K => negb (includes s (token_of K))) (keys_of entries) = true ->
  resolvePlaceholders s entries = Ok s.
Proof.
  intros Hk Hno. rewrite resolvePlaceholders_plain by exact Hk.
  now rewrite replace_tokens_absent.
Qed.

Lemma resolvePlaceholders_no_token_witness :
  resolvePlaceholders (content governing_law)
    [(js "AUTHORIZED_NAME", js "$& Doe"); (js "COUNTY", js "[STATE]")]
  = Ok (content governing_law).
Proof. apply resolvePlaceholders_no_token; reflexivity. Defined.

Lemma resolvePlaceholders_plain_total_witness :
  exists out,
    resolvePlaceholders (content company_signature)
      [(js "AUTHORIZED_NAME", js "Jane Doe"); (js "AUTHORIZED_TITLE", js "CEO")]
    = Ok out.
Proof. apply resolvePlaceholders_plain_total. reflexivity. Defined.

Lemma resolvePlaceholders_keeps_unmapped_witness :
  resolvePlaceholders (js "Dear [NAME], " ++ token_of (js "STATE") ++ js " law, [NAME]")
    [(js "NAME", js "Ann")]
  = Ok (js "Dear Ann, [STATE] law, Ann").
Proof.
  rewrite (resolvePlaceholders_keeps_unmapped (js "STATE") [(js "NAME", js "Ann")]
             (js "Dear [NAME], ") (js " law, [NAME]")).
  - reflexivity.
  - reflexivity.
  - reflexivity.
  - reflexivity.
  - vm_compute. intuition discriminate.
Defined.

Lemma resolvePlaceholders_replaces_mapped_witness :
  resolvePlaceholders (js "[A] and " ++ token_of (js "B") ++ js " and [B]")
    ([(js "A", js "1")] ++ (js "B", js "[C]") :: [(js "C", js "3")])
  = Ok (js "1 and 3 and 3").
Proof.
  rewrite (resolvePlaceholders_replaces_mapped (js "B") (js "[C]") [(js "A", js "1")]
             [(js "C", js "3")] (js "[A] and ") (js " and [B]")).
  - reflexivity.
  - reflexivity.
  - reflexivity.
  - vm_compute. intuition discriminate.
Defined.

(** ** Templates without nested brackets *)

Lemma render_cons (seg : segment) (segs : list segment) :
  render (seg :: segs) = render_segment seg ++ render segs.
Proof. reflexivity. Qed.

(** One turn of the loop on a template. *)
Lemma replace_token_render (K v : jsstring) (segs : list segment) :
  bracket_free K = true -> dollar_free v = true ->
  forallb flat_segment segs = true ->
  replace_token K v (render segs) = render (map (fill_segment [(K, v)]) segs).
Proof.
  intros HK Hv. induction segs as [|seg segs IH]; intros Hflat; [reflexivity|].
  cbn [forallb] in Hflat. apply andb_true_iff in Hflat as [Hseg Hflat].
  cbn [map]. rewrite !render_cons. destruct seg as [t | key]; cbn [render_segment fill_segment].
  - rewrite replace_token_no_open; [now rewrite IH | exact Hv |].
    intros Hin. cbn [flat_segment] in Hseg. unfold bracket_free in Hseg.
    rewrite forallb_forall in Hseg. specialize (Hseg _ Hin). discriminate.
  - cbn [flat_segment] in Hseg.
    change (token_of key ++ render segs) with ([] ++ token_of key ++ render segs).
    rewrite (replace_token_split K v key HK Hv Hseg).
    rewrite IH by exact Hflat. cbn [Map_get].
    change (replace_token K v []) with (@nil ascii). cbn [app].
    destruct (jsstring_eqb K key); reflexivity.
Qed.

Lemma fill_segment_flat (K v : jsstring) (segs : list segment) :
  bracket_free v = true ->
  forallb flat_segment segs = true ->
  forallb flat_segment (map (fill_segment [(K, v)]) segs) = true.
Proof.
  intros Hv. induction segs as [|seg segs IH]; intros H; [reflexivity|].
  simpl in H. apply andb_true_iff in H as [Hseg H]. simpl.
  rewrite IH by exact H. rewrite andb_true_r.
  destruct seg as [t | key]; simpl; [exact Hseg|].
  destruct (jsstring_eqb K key); [exact Hv | exact Hseg].
Qed.

Lemma fill_segment_cons (K v : jsstring) (entries : list (jsstring * jsstring))
  (seg : segment) :
  fill_segment ((K, v) :: entries) seg = fill_segment entries (fill_segment [(K, v)] seg).
Proof.
  destruct seg as [t | key]; simpl; [reflexivity|].
  destruct (jsstring_eqb K key); reflexivity.
Qed.

(** On a template without nested brackets the loop is the replacement of
    all placeholders at once. *)
Lemma replace_tokens_render (entries : list (jsstring * jsstring)) (segs : list segment) :
  forallb plain_key (keys_of entries) = true ->
  forallb dollar_free (values_of entries) = true ->
  forallb bracket_free (values_of entries) = true ->
  forallb flat_segment segs = true ->
  replace_tokens (render segs) entries = render (map (fill_segment entries) segs).
Proof.
  revert segs. induction entries as [|[K v] entries IH]; intros segs Hk Hd Hb Hflat.
  - simpl. f_equal. symmetry. rewrite <- (map_id segs) at 2.
    apply map_ext. now intros [t | key].
  - simpl in Hk, Hd, Hb.
    apply andb_true_iff in Hk as [HK Hk]. apply andb_true_iff in Hd as [Hv Hd].
    apply andb_true_iff in Hb as [Hvb Hb].
    rewrite replace_tokens_cons.
    rewrite replace_token_render; [| now apply plain_key_bracket_free | exact Hv | exact Hflat].
    rewrite IH; [| exact Hk | exact Hd | exact Hb | now apply fill_segment_flat].
    f_equal. rewrite map_map. apply map_ext. intros seg.
    symmetry. apply fill_segment_cons.
Qed.

Lemma Map_get_Permutation (V : Type) (m m' : Map V) (k : jsstring) :
  NoDup (Map_keys m) -> Permutation m m' -> Map_get m k = Map_get m' k.
Proof.
  intros Hnd Hperm.
  assert (Hnd' : NoDup (Map_keys m')).
  { eapply Permutation_NoDup; [|exact Hnd]. unfold Map_keys. now apply Permutation_map. }
  destruct (Map_get m k) as [v|] eqn:E.
  - symmetry. apply Map_in_get; [exact Hnd'|].
    eapply Permutation_in; [exact Hperm|]. now apply Map_get_in.
  - symmetry. apply Map_get_none. apply Map_get_none in E. intros Hin. apply E.
    eapply Permutation_in; [|exact Hin]. unfold Map_keys.
    apply Permutation_map. now apply Permutation_sym.
Qed.

(** X5: for a template of plain texts and placeholders, none with a bracket
    inside, and for keys without syntax characters and values without
    dollar sign and bracket, the loop returns the template with every
    placeholder that has a value replaced by that value, and every other
    placeholder kept. *)
Theorem resolvePlaceholders_flat_template
  (entries : list (jsstring * jsstring)) (segs : list segment) :
  forallb plain_key (keys_of entries) = true ->
  forallb dollar_free (values_of entries) = true ->
  forallb bracket_free (values_of entries) = true ->
  forallb flat_segment segs = true ->
  resolvePlaceholders (render segs) entries
  = Ok (render (map (fill_segment entries) segs)).
Proof.
  intros Hk Hd Hb Hflat. rewrite resolvePlaceholders_plain by exact Hk.
  now rewrite replace_tokens_render.
Qed.

Lemma resolvePlaceholders_flat_template_witness :
  resolvePlaceholders
    (render [Text (js "Name: "); Placeholder (js "AUTHORIZED_NAME");
             Text (js ", "); Placeholder (js "AUTHORIZED_TITLE");
             Text (js " of "); Placeholder (js "COMPANY")])
    [(js "AUTHORIZED_TITLE", js "CEO"); (js "AUTHORIZED_NAME", js "Jane Doe")]
  = Ok (js "Name: Jane Doe, CEO of [COMPANY]").
Proof.
  rewrite resolvePlaceholders_flat_template; reflexivity.
Defined.

(** X6: under the same conditions the order of the entries does not matter:
    two orders of entries with pairwise distinct keys give the same text. *)
Theorem resolvePlaceholders_order_irrelevant
  (entries entries' : list (jsstring * jsstring)) (segs : list segment) :
  Permutation entries entries' ->
  NoDup (keys_of entries) ->
  forallb plain_key (keys_of entries) = true ->
  forallb dollar_free (values_of entries) = true ->
  forallb bracket_free (values_of entries) = true ->
  forallb flat_segment segs = true ->
  resolvePlaceholders (render segs) entries' = resolvePlaceholders (render segs) entries.
Proof.
  intros Hperm Hnd Hk Hd Hb Hflat.
  assert (Hall : forall (f : jsstring -> bool) (p : jsstring * jsstring -> jsstring),
             forallb f (map p entries) = true -> forallb f (map p entries') = true).
  { intros f p H. rewrite forallb_forall in *. intros x Hx. apply H.
    eapply Permutation_in; [|exact Hx]. apply Permutation_map. now apply Permutation_sym. }
  rewrite !resolvePlaceholders_plain; [| exact Hk | now apply (Hall plain_key fst)].
  rewrite !replace_tokens_render;
    [| exact Hk | exact Hd | exact Hb | exact Hflat
     | now apply (Hall plain_key fst) | now apply (Hall dollar_free snd)
     | now apply (Hall bracket_free snd) | exact Hflat].
  do 2 f_equal. apply map_ext. intros [t | key]; simpl; [reflexivity|].
  now rewrite (Map_get_Permutation _ entries entries' key Hnd Hperm).
Qed.

Lemma resolvePlaceholders_order_irrelevant_witness :
  resolvePlaceholders (render [Placeholder (js "A"); Text (js "-"); Placeholder (js "B")])
    [(js "B", js "2"); (js "A", js "1")]
  = resolvePlaceholders (render [Placeholder (js "A"); Text (js "-"); Placeholder (js "B")])
      [(js "A", js "1"); (js "B", js "2")].
Proof.
  apply resolvePlaceholders_order_irrelevant.
  - apply perm_swap.
  - repeat constructor; simpl; intuition discriminate.
  - reflexivity.
  - reflexivity.
  - reflexivity.
  - reflexivity.
Defined.

(** * Entity insertion points *)

Lemma replace_first_scan_eq (pattern replaceValue seen s : jsstring) :
  replace_first_scan pattern replaceValue seen s
  = if startsWith s pattern then
      GetSubstitution pattern (rev seen) (skipn (List.length pattern) s) replaceValue
        ++ skipn (List.length pattern) s
    else
      match s with
      | [] => []
      | c :: s' => c :: replace_first_scan pattern replaceValue (c :: seen) s'
      end.
Proof. destruct s; reflexivity. Qed.

(** Replacing a prefix by the empty string removes it. *)
Lemma String_replace_first_prefix (s pattern : jsstring) :
  startsWith s pattern = true ->
  String_replace_first s pattern [] = skipn (List.length pattern) s.
Proof.
  intros H. unfold String_replace_first. rewrite replace_first_scan_eq, H. reflexivity.
Qed.

Lemma entity_type_replace (control : ContentControl.t) :
  is_insertion_point control = true ->
  String_replace_first (ContentControl.tag control) (js "entity:") [] = entity_type control.
Proof. intros H. now rewrite String_replace_first_prefix. Qed.

(** The loop works on each control by itself and appends the types it
    resolves. *)
Lemma resolve_loop_map (lib : EntityLibrary) (items : ContentControls)
  (resolved : list jsstring) :
  resolve_loop lib items resolved
  = (map (resolved_control lib) items,
     resolved ++ filter (stored lib) (map entity_type (filter is_insertion_point items))).
Proof.
  revert resolved. induction items as [|c items IH]; intros resolved.
  - simpl. now rewrite app_nil_r.
  - cbn [resolve_loop map filter]. unfold resolved_control at 1.
    fold (is_insertion_point c).
    destruct (is_insertion_point c) eqn:Hp.
    + rewrite entity_type_replace by exact Hp. cbn [map filter]. unfold stored at 1.
      destruct (getEntity lib (entity_type c)) as [e|] eqn:He.
      * rewrite IH. now rewrite <- app_assoc.
      * now rewrite IH.
    + now rewrite IH.
Qed.

Lemma resolved_prefix_not_point (t : jsstring) :
  startsWith (js "resolved:" ++ t) (js "entity:") = false.
Proof. reflexivity. Qed.

Lemma resolved_control_settled (lib : EntityLibrary) (c : ContentControl.t) :
  is_insertion_point (resolved_control lib c) = true ->
  stored lib (entity_type (resolved_control lib c)) = false /\
  resolved_control lib c = c.
Proof.
  unfold resolved_control. destruct (is_insertion_point c) eqn:Hp.
  - destruct (getEntity lib (entity_type c)) as [e|] eqn:He.
    + unfold is_insertion_point. simpl. discriminate.
    + intros _. unfold stored. now rewrite He.
  - rewrite Hp. discriminate.
Qed.

Lemma resolved_control_twice (lib : EntityLibrary) (c : ContentControl.t) :
  resolved_control lib (resolved_control lib c) = resolved_control lib c.
Proof.
  destruct (is_insertion_point (resolved_control lib c)) eqn:Hp.
  - destruct (resolved_control_settled lib c Hp) as [Hs Hc].
    rewrite Hc in *. unfold resolved_control at 1. rewrite Hp.
    unfold stored in Hs. destruct (getEntity lib (entity_type c)); [discriminate|].
    reflexivity.
  - unfold resolved_control at 1. now rewrite Hp.
Qed.

(** X11: what [resolveEntityInsertionPoints] does to the controls: the ids and
    their order stay; a control that is no insertion point, or whose entity
    type is not in the library, stays as it is; an insertion point of a
    stored entity gets the content of the entity as its text and the tag
    [resolved:] with its type; the array returned holds the resolved types
    in document order. *)
Theorem resolveEntityInsertionPoints_exact (lib : EntityLibrary) (items : ContentControls) :
  map ContentControl.id (fst (resolveEntityInsertionPoints lib items))
  = map ContentControl.id items /\
  (forall n c,
      nth_error items n = Some c ->
      is_insertion_point c = false \/ stored lib (entity_type c) = false ->
      nth_error (fst (resolveEntityInsertionPoints lib items)) n = Some c) /\
  (forall n c e,
      nth_error items n = Some c ->
      is_insertion_point c = true ->
      getEntity lib (entity_type c) = Some e ->
      nth_error (fst (resolveEntityInsertionPoints lib items)) n
      = Some (ContentControl.set_tag
                (ContentControl.insertText c (content e))
                (js "resolved:" ++ entity_type c))) /\
  snd (resolveEntityInsertionPoints lib items)
  = filter (stored lib) (map entity_type (filter is_insertion_point items)).
Proof.
  unfold resolveEntityInsertionPoints. rewrite resolve_loop_map. cbn [fst snd app].
  split; [|split; [|split]].
  - rewrite map_map. apply map_ext. intros c. unfold resolved_control.
    destruct (is_insertion_point c); [|reflexivity].
    destruct (getEntity lib (entity_type c)); reflexivity.
  - intros n c Hn Hc. rewrite nth_error_map, Hn. cbn. f_equal.
    unfold resolved_control. destruct Hc as [Hp | Hs].
    + now rewrite Hp.
    + unfold stored in Hs. destruct (is_insertion_point c); [|reflexivity].
      destruct (getEntity lib (entity_type c)); [discriminate | reflexivity].
  - intros n c e Hn Hp He. rewrite nth_error_map, Hn. cbn. f_equal.
    unfold resolved_control. now rewrite Hp, He.
  - reflexivity.
Qed.

(** X12: a second run finds nothing to resolve: it returns the empty array and
    leaves every control as the first run left it. *)
Theorem resolveEntityInsertionPoints_idempotent (lib : EntityLibrary) (items : ContentControls) :
  resolveEntityInsertionPoints lib (fst (resolveEntityInsertionPoints lib items))
  = (fst (resolveEntityInsertionPoints lib items), []).
Proof.
  unfold resolveEntityInsertionPoints. rewrite !resolve_loop_map. cbn [fst app].
  f_equal.
  - rewrite map_map. apply map_ext. intros c. apply resolved_control_twice.
  - induction items as [|c items IH]; [reflexivity|].
    cbn [map filter]. destruct (is_insertion_point (resolved_control lib c)) eqn:Hp.
    + destruct (resolved_control_settled lib c Hp) as [Hs _].
      cbn [map filter]. now rewrite Hs.
    + exact IH.
Qed.

(** X13: an insertion point made by [createEntityInsertionPoint] for a key of
    the library is resolved, wherever it stands among the controls: its text
    becomes the content of the entity as stored, its tag [resolved:] with
    the key, and the key is among the types returned. *)
Theorem insertion_point_resolved
  (lib : EntityLibrary) (i label : jsstring) (e : StandardEntity)
  (control : ContentControl.t) (before after : ContentControls) :
  getEntity lib i = Some e ->
  nth_error
    (fst (resolveEntityInsertionPoints lib
            (before ++ fst (createEntityInsertionPoint i label control) :: after)))
    (List.length before)
  = Some (ContentControl.set_tag
            (ContentControl.insertText
               (fst (createEntityInsertionPoint i label control)) (content e))
            (js "resolved:" ++ i)) /\
  In i (snd (resolveEntityInsertionPoints lib
               (before ++ fst (createEntityInsertionPoint i label control) :: after))).
Proof.
  intros He. unfold resolveEntityInsertionPoints. rewrite resolve_loop_map.
  cbn [fst snd app].
  set (point := fst (createEntityInsertionPoint i label control)).
  assert (Hp : is_insertion_point point = true) by reflexivity.
  assert (Ht : entity_type point = i) by reflexivity.
  split.
  - rewrite map_app, nth_error_app2 by (rewrite length_map; lia).
    rewrite length_map, Nat.sub_diag. cbn [map nth_error].
    unfold resolved_control. now rewrite Hp, Ht, He.
  - apply filter_In. split.
    + rewrite filter_app, map_app. apply in_or_app. right.
      cbn [filter]. rewrite Hp. left. exact Ht.
    + unfold stored. now rewrite He.
Qed.

(** * insertEntity and its callers *)

(** X8: the behaviour of [insertEntity].  For a key that is absent the call
    fails with the error [Entity not found] before anything is inserted.
    For a key that is present the inserted text is the content of the
    entity as stored, placeholders included; italic is assigned exactly for
    the category legal and the size 11 exactly for the category signature,
    and every other category is inserted without any font assignment. *)
Theorem insertEntity_exact (lib : EntityLibrary) (i : jsstring) :
  (getEntity lib i = None ->
   insertEntity lib i = Throws (Error (js "Entity not found: " ++ i))) /\
  (forall e,
      getEntity lib i = Some e ->
      exists r,
        insertEntity lib i = Ok r /\
        inserted_text r = content e /\
        (font_italic r = Some true <-> category e = js "legal") /\
        (font_size r = Some 11%Z <-> category e = js "signature") /\
        (category e <> js "legal" -> category e <> js "signature" ->
         font_italic r = None /\ font_size r = None)).
Proof.
  unfold insertEntity. split.
  - intros H. now rewrite H.
  - intros e H. rewrite H. cbn [safeWordRun].
    destruct (jsstring_eqb (category e) (js "legal")) eqn:Hl;
      [|destruct (jsstring_eqb (category e) (js "signature")) eqn:Hs];
      rewrite ?jsstring_eqb_eq, ?jsstring_eqb_neq in *;
      (eexists; split; [reflexivity|]; cbn;
       split; [reflexivity|]; split; [|split]);
      try (split; intros; try reflexivity; try discriminate; try contradiction;
           try assumption);
      try (intros; contradiction);
      try (intros; split; reflexivity);
      try (exfalso;
           match goal with
           | H1 : category e = _, H2 : category e = _ |- _ =>
               rewrite H1 in H2; vm_compute in H2; discriminate H2
           end).
Qed.

Lemma insertEntity_exact_witness :
  getEntity new_EntityLibrary (js "gdpr-clause") = None /\
  insertEntity new_EntityLibrary (js "gdpr-clause")
  = Throws (Error (js "Entity not found: gdpr-clause")) /\
  getEntity new_EntityLibrary (js "company-signature") = Some company_signature /\
  exists r,
    insertEntity new_EntityLibrary (js "company-signature") = Ok r /\
    inserted_text r = content company_signature /\
    font_size r = Some 11%Z.
Proof.
  pose proof (insertEntity_exact new_EntityLibrary (js "gdpr-clause")) as [Habsent _].
  pose proof (insertEntity_exact new_EntityLibrary (js "company-signature")) as [_ Hpresent].
  split; [reflexivity|]. split; [exact (Habsent eq_refl)|]. split; [reflexivity|].
  destruct (Hpresent company_signature eq_refl) as (r & Hr & Ht & _ & Hs & _).
  exists r. split; [exact Hr|]. split; [exact Ht|]. now apply Hs.
Defined.

Lemma insertEntity_stored (lib : EntityLibrary) (i : jsstring) :
  stored lib i = true -> exists r, insertEntity lib i = Ok r.
Proof.
  unfold stored, insertEntity. destruct (getEntity lib i) as [e|]; [|discriminate].
  intros _. cbn [safeWordRun]. eexists. reflexivity.
Qed.

(** X7: when no key of the field values has its token in the content of the
    entity, [insertEntityWithFields] puts the content as stored at the
    selection: the text that [insertEntity] inserts for the same id. *)
Theorem insertEntityWithFields_without_tokens
  (lib : EntityLibrary) (ewf : EntityWithFields) (e : StandardEntity) (sel : jsstring) :
  getEntity lib (entityId ewf) = Some e ->
  forallb plain_key (keys_of (fieldValues ewf)) = true ->
  forallb (fun K => negb (includes (content e) (token_of K)))
    (keys_of (fieldValues ewf)) = true ->
  insertEntityWithFields ewf {| library := lib; selection := sel |}
  = (Ok tt, {| library := lib; selection := content e |}) /\
  exists r, insertEntity lib (entityId ewf) = Ok r /\ inserted_text r = content e.
Proof.
  intros He Hk Hno. split.
  - unfold insertEntityWithFields. cbn [library]. rewrite He.
    rewrite resolvePlaceholders_plain by exact Hk.
    rewrite replace_tokens_absent by exact Hno. reflexivity.
  - unfold insertEntity. rewrite He. cbn [safeWordRun].
    eexists. split; [reflexivity|].
    destruct (jsstring_eqb (category e) (js "legal")); [reflexivity|].
    destruct (jsstring_eqb (category e) (js "signature")); reflexivity.
Qed.

Lemma insertEntityWithFields_without_tokens_witness :
  insertEntityWithFields
    {| entityId := js "governing-law";
       fieldValues := [(js "COUNTY", js "Kent"); (js "AUTHORIZED_NAME", js "Jane")] |}
    {| library := new_EntityLibrary; selection := js "old" |}
  = (Ok tt, {| library := new_EntityLibrary; selection := content governing_law |}).
Proof.
  refine (proj1 (insertEntityWithFields_without_tokens new_EntityLibrary
                   {| entityId := js "governing-law";
                      fieldValues := [(js "COUNTY", js "Kent");
                                      (js "AUTHORIZED_NAME", js "Jane")] |}
                   governing_law (js "old") _ _ _)); reflexivity.
Defined.

(** ** insertConditionalEntities *)

(** The loop over items whose chosen entities are all in the library. *)
Lemma insertConditionalEntities_loop_app
  (lib : EntityLibrary) (context : DocumentContext)
  (before rest : list ConditionalEntity.t) :
  forallb (stored lib) (chosen context before) = true ->
  exists rs,
    Forall2 (fun i r => insertEntity lib i = Ok r) (chosen context before) rs /\
    forall inserted ranges,
      insertConditionalEntities_loop lib context (before ++ rest) inserted ranges
      = insertConditionalEntities_loop lib context rest
          (inserted ++ chosen context before) (ranges ++ rs).
Proof.
  induction before as [|item before IH]; intros Hall.
  - exists []. split; [constructor|]. intros inserted ranges. cbn.
    now rewrite !app_nil_r.
  - unfold chosen in Hall |- *. cbn [filter] in Hall |- *.
    destruct (ConditionalEntity.condition item context) eqn:Hc.
    + cbn [map forallb] in Hall. apply andb_true_iff in Hall as [Hs Hall].
      destruct (IH Hall) as (rs & Hrs & Hloop).
      destruct (insertEntity_stored lib _ Hs) as [r Hr].
      exists (r :: rs). split; [now constructor|].
      intros inserted ranges. cbn [app insertConditionalEntities_loop].
      rewrite Hc, Hr, Hloop. cbn [map]. unfold chosen.
      now rewrite <- !app_assoc.
    + destruct (IH Hall) as (rs & Hrs & Hloop).
      exists rs. split; [exact Hrs|].
      intros inserted ranges. cbn [app insertConditionalEntities_loop].
      rewrite Hc. apply Hloop.
Qed.

(** X9: when every entity whose condition holds is in the library,
    [insertConditionalEntities] returns the ids whose condition holds, in
    the order of the items, and has inserted these entities one after the
    other; an item whose condition fails is not looked up. *)
Theorem insertConditionalEntities_all_stored
  (lib : EntityLibrary) (context : DocumentContext) (items : list ConditionalEntity.t) :
  forallb (stored lib) (chosen context items) = true ->
  snd (insertConditionalEntities lib context items) = Ok (chosen context items) /\
  Forall2 (fun i r => insertEntity lib i = Ok r) (chosen context items)
    (fst (insertConditionalEntities lib context items)).
Proof.
  intros Hall.
  destruct (insertConditionalEntities_loop_app lib context items [] Hall)
    as (rs & Hrs & Hloop).
  unfold insertConditionalEntities. rewrite <- (app_nil_r items), Hloop.
  cbn. rewrite app_nil_r. now split.
Qed.

(** X10: at the first item whose condition holds and whose entity is not in the
    library the call fails with the error of [insertEntity]; the entities
    chosen before that item have been inserted and stay inserted, and no
    item behind it is considered. *)
Theorem insertConditionalEntities_first_missing
  (lib : EntityLibrary) (context : DocumentContext)
  (before after : list ConditionalEntity.t) (item : ConditionalEntity.t) :
  forallb (stored lib) (chosen context before) = true ->
  ConditionalEntity.condition item context = true ->
  getEntity lib (ConditionalEntity.entityId item) = None ->
  snd (insertConditionalEntities lib context (before ++ item :: after))
  = Throws (Error (js "Entity not found: " ++ ConditionalEntity.entityId item)) /\
  Forall2 (fun i r => insertEntity lib i = Ok r) (chosen context before)
    (fst (insertConditionalEntities lib context (before ++ item :: after))).
Proof.
  intros Hall Hc Hmiss.
  destruct (insertConditionalEntities_loop_app lib context before (item :: after) Hall)
    as (rs & Hrs & Hloop).
  unfold insertConditionalEntities. rewrite Hloop.
  cbn [insertConditionalEntities_loop app]. rewrite Hc.
  unfold insertEntity. rewrite Hmiss. cbn. now split.
Qed.

(** * createDropdownControl *)

Lemma mark_selected_options (options : list (jsstring * jsstring)) (idx : nat) (d : Z) :
  map (fun it => (ContentControl.displayText it, ContentControl.value it))
    (mark_selected options idx d)
  = options.
Proof.
  revert idx. induction options as [|[t v] options IH]; intros idx; [reflexivity|].
  cbn. now rewrite IH.
Qed.

Lemma mark_selected_nth (options : list (jsstring * jsstring)) (idx : nat) (d : Z)
  (k : nat) (it : ContentControl.DropdownItem) :
  nth_error (mark_selected options idx d) k = Some it ->
  ContentControl.selected it = Z.eqb (Z.of_nat (idx + k)) d.
Proof.
  revert idx k. induction options as [|[t v] options IH]; intros idx k H.
  - destruct k; discriminate.
  - destruct k as [|k]; cbn in H.
    + injection H as <-. cbn. now rewrite Nat.add_0_r.
    + apply IH in H. rewrite H. f_equal. lia.
Qed.

Lemma mark_selected_count (options : list (jsstring * jsstring)) (idx : nat) (d : Z) :
  List.length (filter ContentControl.selected (mark_selected options idx d))
  = if (Z.of_nat idx <=? d)%Z && (d <? Z.of_nat (idx + List.length options))%Z
    then 1 else 0.
Proof.
  revert idx. induction options as [|[t v] options IH]; intros idx.
  - cbn. destruct (Z.leb_spec (Z.of_nat idx) d), (Z.ltb_spec d (Z.of_nat (idx + 0)));
      try reflexivity; lia.
  - cbn [mark_selected filter ContentControl.selected List.length].
    destruct (Z.eqb_spec (Z.of_nat idx) d) as [E | E].
    + cbn [List.length]. rewrite IH.
      destruct (Z.leb_spec (Z.of_nat (S idx)) d); [lia|]. cbn.
      destruct (Z.leb_spec (Z.of_nat idx) d),
        (Z.ltb_spec d (Z.of_nat (idx + S (List.length options)))); try reflexivity; lia.
    + rewrite IH.
      destruct (Z.leb_spec (Z.of_nat (S idx)) d),
        (Z.ltb_spec d (Z.of_nat (S idx + List.length options))),
        (Z.leb_spec (Z.of_nat idx) d),
        (Z.ltb_spec d (Z.of_nat (idx + S (List.length options))));
        try reflexivity; lia.
Qed.

(** X14: the list of a dropdown control keeps the options and their order; the
    option at index [k] is marked selected exactly when [k] is the default
    index; so one option is selected when the default index is an index of
    the list, and none otherwise (an empty list, a negative or too large
    index). *)
Theorem createDropdownControl_selection
  (title tag : jsstring) (options : list (jsstring * jsstring)) (defaultIndex : Z)
  (control : ContentControl.t) :
  let items :=
    ContentControl.dropdownListValues
      (fst (createDropdownControl title tag options defaultIndex control)) in
  map (fun it => (ContentControl.displayText it, ContentControl.value it)) items = options /\
  (forall k it,
      nth_error items k = Some it ->
      (ContentControl.selected it = true <-> Z.of_nat k = defaultIndex)) /\
  List.length (filter ContentControl.selected items)
  = if (0 <=? defaultIndex)%Z && (defaultIndex <? Z.of_nat (List.length options))%Z
    then 1 else 0.
Proof.
  cbn. split; [apply mark_selected_options|]. split.
  - intros k it H. apply mark_selected_nth in H. rewrite H. cbn.
    apply Z.eqb_eq.
  - apply (mark_selected_count options 0 defaultIndex).
Qed.

Lemma insertConditionalEntities_all_stored_witness :
  forallb (stored new_EntityLibrary) (chosen (context_of "EU" false) sample_conditions) = true /\
  snd (insertConditionalEntities new_EntityLibrary (context_of "EU" false) sample_conditions)
  = Ok [js "governing-law"; js "company-signature"].
Proof.
  split; [reflexivity|].
  exact (proj1 (insertConditionalEntities_all_stored new_EntityLibrary
                  (context_of "EU" false) sample_conditions eq_refl)).
Defined.

Lemma insertConditionalEntities_first_missing_witness :
  snd (insertConditionalEntities new_EntityLibrary (context_of "EU" true) sample_conditions)
  = Throws (Error (js "Entity not found: data-processing-agreement")) /\
  List.length
    (fst (insertConditionalEntities new_EntityLibrary (context_of "EU" true)
            sample_conditions))
  = 1.
Proof.
  split; [|reflexivity].
  exact (proj1 (insertConditionalEntities_first_missing new_EntityLibrary
                  (context_of "EU" true)
                  [ {| ConditionalEntity.entityId := js "governing-law";
                       ConditionalEntity.condition := in_region "EU" |} ]
                  [ {| ConditionalEntity.entityId := js "company-signature";
                       ConditionalEntity.condition := fun _ => true |} ]
                  {| ConditionalEntity.entityId := js "data-processing-agreement";
                     ConditionalEntity.condition := is_sensitive |}
                  eq_refl eq_refl eq_refl)).
Defined.

Lemma createDropdownControl_selection_witness :
  List.length
    (filter ContentControl.selected
       (ContentControl.dropdownListValues
          (fst (createDropdownControl (js "Priority") (js "priority-level")
                  [(js "Low", js "low"); (js "Medium", js "medium"); (js "High", js "high")]
                  1 (blank_control 7)))))
  = 1 /\
  List.length
    (filter ContentControl.selected
       (ContentControl.dropdownListValues
          (fst (createDropdownControl (js "Priority") (js "priority-level")
                  [(js "Low", js "low"); (js "Medium", js "medium"); (js "High", js "high")]
                  3 (blank_control 7)))))
  = 0.
Proof.
  split.
  - exact (proj2 (proj2 (createDropdownControl_selection (js "Priority")
                           (js "priority-level")
                           [(js "Low", js "low"); (js "Medium", js "medium");
                            (js "High", js "high")] 1 (blank_control 7)))).
  - exact (proj2 (proj2 (createDropdownControl_selection (js "Priority")
                           (js "priority-level")
                           [(js "Low", js "low"); (js "Medium", js "medium");
                            (js "High", js "high")] 3 (blank_control 7)))).
Defined.

Lemma resolveEntityInsertionPoints_exact_witness :
  nth_error
    (fst (resolveEntityInsertionPoints new_EntityLibrary
            [field 1 "entity:governing-law" ""; field 2 "customer" "Ann";
             field 3 "entity:unknown" "?"]))
    0
  = Some (field 1 "resolved:governing-law"
            "This Agreement shall be governed by and construed in accordance with the laws of the State of [STATE].") /\
  nth_error
    (fst (resolveEntityInsertionPoints new_EntityLibrary
            [field 1 "entity:governing-law" ""; field 2 "customer" "Ann";
             field 3 "entity:unknown" "?"]))
    2
  = Some (field 3 "entity:unknown" "?").
Proof.
  pose proof (resolveEntityInsertionPoints_exact new_EntityLibrary
                [field 1 "entity:governing-law" ""; field 2 "customer" "Ann";
                 field 3 "entity:unknown" "?"]) as (_ & Hkept & Hresolved & _).
  split.
  - exact (Hresolved 0 (field 1 "entity:governing-law" "") governing_law
             eq_refl eq_refl eq_refl).
  - exact (Hkept 2 (field 3 "entity:unknown" "?") eq_refl (or_intror eq_refl)).
Defined.

Lemma insertion_point_resolved_witness :
  getEntity new_EntityLibrary (js "company-signature") = Some company_signature /\
  In (js "company-signature")
    (snd (resolveEntityInsertionPoints new_EntityLibrary
            ([field 1 "customer" "Ann"]
               ++ fst (createEntityInsertionPoint (js "company-signature")
                         (js "Signature") (blank_control 2))
               :: [field 3 "entity:unknown" "?"]))).
Proof.
  split; [reflexivity|].
  exact (proj2 (insertion_point_resolved new_EntityLibrary (js "company-signature")
                  (js "Signature") company_signature (blank_control 2)
                  [field 1 "customer" "Ann"] [field 3 "entity:unknown" "?"] eq_refl)).
Defined.

(** * Form templates: fillFormTemplate, getControlValues, findControlByTag *)

Lemma filled_control_tag (data : FormData) (c : ContentControl.t) :
  ContentControl.tag (filled_control data c) = ContentControl.tag c.
Proof.
  unfold filled_control. destruct (truthy (ContentControl.tag c)); [|reflexivity].
  destruct (FormData_get data (ContentControl.tag c)); reflexivity.
Qed.

Lemma filled_control_id (data : FormData) (c : ContentControl.t) :
  ContentControl.id (filled_control data c) = ContentControl.id c.
Proof.
  unfold filled_control. destruct (truthy (ContentControl.tag c)); [|reflexivity].
  destruct (FormData_get data (ContentControl.tag c)); reflexivity.
Qed.

Lemma tags_of_filled (data : FormData) (items : ContentControls) :
  tags_of (map (filled_control data) items) = tags_of items.
Proof.
  unfold tags_of. rewrite map_map. apply map_ext. apply filled_control_tag.
Qed.

Lemma named_tags_cons (c : ContentControl.t) (items : ContentControls) :
  named_tags (c :: items)
  = if truthy (ContentControl.tag c) then ContentControl.tag c :: named_tags items
    else named_tags items.
Proof. reflexivity. Qed.

(** The loop fills each control by itself and sorts the tags that are not
    empty into [filled] and [missing]. *)
Lemma fillFormTemplate_loop_map (data : FormData) (items : ContentControls)
  (filled missing : list jsstring) :
  no_inherited_hit data items = true ->
  fillFormTemplate_loop data items filled missing
  = Ok (map (filled_control data) items,
        filled ++ filter (has_value data) (named_tags items),
        missing ++ filter (fun t => negb (has_value data t)) (named_tags items)).
Proof.
  revert filled missing. induction items as [|c items IH]; intros filled missing H.
  - cbn. now rewrite !app_nil_r.
  - cbn [no_inherited_hit forallb] in H. apply andb_true_iff in H as [Hc H].
    fold (no_inherited_hit data items) in H.
    cbn [fillFormTemplate_loop map]. rewrite named_tags_cons.
    unfold filled_control at 1.
    destruct (truthy (ContentControl.tag c)) eqn:Ht; cbn [negb orb] in Hc.
    + cbn [filter].
      destruct (FormData_get data (ContentControl.tag c)) eqn:Hg; [| discriminate |].
      * assert (Hh : has_value data (ContentControl.tag c) = true)
          by (unfold has_value; now rewrite Hg).
        rewrite IH by exact H. rewrite Hh. cbn [negb]. now rewrite <- app_assoc.
      * assert (Hh : has_value data (ContentControl.tag c) = false)
          by (unfold has_value; now rewrite Hg).
        rewrite IH by exact H. rewrite Hh. cbn [negb]. now rewrite <- app_assoc.
    + now rewrite IH by exact H.
Qed.

(** X15: with no inherited property in the way, [fillFormTemplate] gives every
    control whose tag is not empty and has a value in [data] that value as
    its text and leaves every other control as it is; ids, tags and order of
    the controls stay; [filled] holds the tags with a value and [missing]
    the tags without one, both in document order and with repetitions. *)
Theorem fillFormTemplate_exact (data : FormData) (items : ContentControls) :
  no_inherited_hit data items = true ->
  fillFormTemplate data items
  = Ok (map (filled_control data) items,
        filter (has_value data) (named_tags items),
        filter (fun t => negb (has_value data t)) (named_tags items)) /\
  tags_of (map (filled_control data) items) = tags_of items /\
  map ContentControl.id (map (filled_control data) items) = map ContentControl.id items.
Proof.
  intros H. split; [|split].
  - unfold fillFormTemplate. now rewrite fillFormTemplate_loop_map.
  - apply tags_of_filled.
  - rewrite map_map. apply map_ext. apply filled_control_id.
Qed.

Lemma fillFormTemplate_exact_witness :
  fillFormTemplate [(js "customer", js "Ann"); (js "total", js "12")]
    [field 1 "customer" ""; field 2 "" "free text"; field 3 "date" "?";
     field 4 "customer" "old"]
  = Ok ([field 1 "customer" "Ann"; field 2 "" "free text"; field 3 "date" "?";
         field 4 "customer" "Ann"],
        [js "customer"; js "customer"], [js "date"]).
Proof.
  exact (proj1 (fillFormTemplate_exact
                  [(js "customer", js "Ann"); (js "total", js "12")]
                  [field 1 "customer" ""; field 2 "" "free text"; field 3 "date" "?";
                   field 4 "customer" "old"] eq_refl)).
Defined.

Lemma filled_control_twice (data : FormData) (c : ContentControl.t) :
  filled_control data (filled_control data c) = filled_control data c.
Proof.
  unfold filled_control at 1. rewrite filled_control_tag.
  unfold filled_control.
  destruct (truthy (ContentControl.tag c)); [|reflexivity].
  destruct (FormData_get data (ContentControl.tag c)); reflexivity.
Qed.

Lemma no_inherited_hit_filled (data : FormData) (items : ContentControls) :
  no_inherited_hit data (map (filled_control data) items) = no_inherited_hit data items.
Proof.
  unfold no_inherited_hit. induction items as [|c items IH]; [reflexivity|].
  cbn [map forallb]. now rewrite filled_control_tag, IH.
Qed.

(** X16: when no control's tag names a property that [data] only inherits
    from [Object.prototype], [fillFormTemplate] completes, and filling the
    controls it leaves with the same data once more changes nothing and
    returns the same arrays. *)
Theorem fillFormTemplate_idempotent (data : FormData) (items : ContentControls) :
  no_inherited_hit data items = true ->
  exists items' filled missing,
    fillFormTemplate data items = Ok (items', filled, missing) /\
    fillFormTemplate data items' = Ok (items', filled, missing).
Proof.
  intros H. unfold fillFormTemplate.
  rewrite fillFormTemplate_loop_map by exact H.
  do 3 eexists. split; [reflexivity|].
  rewrite fillFormTemplate_loop_map by (now rewrite no_inherited_hit_filled).
  unfold named_tags. rewrite tags_of_filled. cbn [safeWordRun app]. do 3 f_equal.
  rewrite map_map. apply map_ext. apply filled_control_twice.
Qed.

Lemma fillFormTemplate_idempotent_witness :
  exists items' filled missing,
    fillFormTemplate [(js "customer", js "Ann")]
      [field 1 "customer" ""; field 2 "date" "?"; field 3 "" "free"]
    = Ok (items', filled, missing) /\
    fillFormTemplate [(js "customer", js "Ann")] items' = Ok (items', filled, missing).
Proof.
  apply (fillFormTemplate_idempotent [(js "customer", js "Ann")]
           [field 1 "customer" ""; field 2 "date" "?"; field 3 "" "free"]).
  reflexivity.
Defined.

Lemma find_by_tag_filled (data : FormData) (items : ContentControls) (t : jsstring) :
  find_by_tag (map (filled_control data) items) t
  = option_map (filled_control data) (find_by_tag items t).
Proof.
  induction items as [|c items IH]; [reflexivity|].
  cbn [map find_by_tag]. rewrite filled_control_tag.
  destruct (jsstring_eqb (ContentControl.tag c) t); [reflexivity | exact IH].
Qed.

(** The control found among the filled controls. *)
Lemma findControlByTag_filled_controls
  (data : FormData) (items : ContentControls) (t : jsstring) :
  (forall v,
      truthy t = true -> FormData_get data t = Own v ->
      findControlByTag (map (filled_control data) items) t
      = option_map (fun found => (fst found, v)) (findControlByTag items t)) /\
  (truthy t = false \/ has_value data t = false ->
   findControlByTag (map (filled_control data) items) t = findControlByTag items t).
Proof.
  unfold findControlByTag. rewrite find_by_tag_filled.
  assert (Htag : forall c, find_by_tag items t = Some c -> ContentControl.tag c = t).
  { induction items as [|c0 items IH]; intros c H; [discriminate|].
    cbn in H. destruct (jsstring_eqb (ContentControl.tag c0) t) eqn:E.
    - injection H as <-. now apply jsstring_eqb_eq.
    - now apply IH. }
  destruct (find_by_tag items t) as [c|]; [|split; reflexivity].
  specialize (Htag c eq_refl). cbn [option_map fst]. split.
  - intros v Ht Hg. unfold filled_control. rewrite Htag, Ht, Hg. reflexivity.
  - intros H. unfold filled_control. rewrite Htag. destruct H as [Ht | Hv].
    + now rewrite Ht.
    + unfold has_value in Hv. destruct (truthy t); [|reflexivity].
      destruct (FormData_get data t); [discriminate | reflexivity | reflexivity].
Qed.

(** X17: when no control's tag names a property that [data] only inherits
    from [Object.prototype], [fillFormTemplate] completes and, on the
    controls it leaves, [findControlByTag] finds the same control as before
    (the same id, or [null] as before); the text it reports is the value of
    [data] when the tag is not empty and has one, and the old text
    otherwise. *)
Theorem findControlByTag_after_fill
  (data : FormData) (items : ContentControls) (t : jsstring) :
  no_inherited_hit data items = true ->
  exists items' filled missing,
    fillFormTemplate data items = Ok (items', filled, missing) /\
    (forall v,
        truthy t = true -> FormData_get data t = Own v ->
        findControlByTag items' t
        = option_map (fun found => (fst found, v)) (findControlByTag items t)) /\
    (truthy t = false \/ has_value data t = false ->
     findControlByTag items' t = findControlByTag items t).
Proof.
  intros H. unfold fillFormTemplate.
  rewrite fillFormTemplate_loop_map by exact H.
  do 3 eexists. split; [reflexivity|].
  apply findControlByTag_filled_controls.
Qed.

Lemma findControlByTag_after_fill_witness :
  exists items' filled missing,
    fillFormTemplate [(js "customer", js "Ann")]
      [field 1 "date" "?"; field 2 "customer" ""; field 3 "customer" "old"]
    = Ok (items', filled, missing) /\
    findControlByTag items' (js "customer") = Some (2%Z, js "Ann") /\
    findControlByTag items' (js "date") = Some (1%Z, js "?").
Proof.
  destruct (findControlByTag_after_fill [(js "customer", js "Ann")]
              [field 1 "date" "?"; field 2 "customer" ""; field 3 "customer" "old"]
              (js "customer") eq_refl)
    as (items' & filled & missing & Hfill & Hvalue & _).
  exists items', filled, missing. split; [exact Hfill|]. split.
  - rewrite (Hvalue (js "Ann") eq_refl eq_refl). reflexivity.
  - vm_compute in Hfill. injection Hfill as <- _ _. reflexivity.
Defined.

(** ** getControlValues *)

Lemma FormData_get_set_same (values : FormData) (key v : jsstring) :
  key <> js "__proto__" -> FormData_get (FormData_set values key v) key = Own v.
Proof.
  intros H. unfold FormData_get, FormData_set.
  apply jsstring_eqb_neq in H. rewrite H. now rewrite Map_get_set_same.
Qed.

Lemma Map_get_FormData_set_other (values : FormData) (key v k : jsstring) :
  k <> key -> Map_get (FormData_set values key v) k = Map_get values k.
Proof.
  intros H. unfold FormData_set.
  destruct (jsstring_eqb key (js "__proto__")); [reflexivity|].
  now apply Map_get_set_other.
Qed.

Lemma getControlValues_loop_app (a b : ContentControls) (values : FormData) :
  getControlValues_loop (a ++ b) values
  = getControlValues_loop b (getControlValues_loop a values).
Proof.
  revert values. induction a as [|c a IH]; intros values; [reflexivity|].
  cbn. destruct (truthy (ContentControl.tag c)); apply IH.
Qed.

(** Controls with other tags do not touch the value under a key. *)
Lemma getControlValues_loop_other (items : ContentControls) (values : FormData)
  (t : jsstring) :
  ~ In t (tags_of items) ->
  Map_get (getControlValues_loop items values) t = Map_get values t.
Proof.
  revert values. induction items as [|c items IH]; intros values H; [reflexivity|].
  cbn in H. cbn [getControlValues_loop].
  destruct (truthy (ContentControl.tag c)).
  - rewrite IH by tauto. apply Map_get_FormData_set_other. intros E. apply H. now left.
  - apply IH. tauto.
Qed.

(** The value under a tag is the text of the last control with that tag. *)
Lemma getControlValues_loop_last
  (front after : ContentControls) (last : ContentControl.t) (values : FormData) :
  truthy (ContentControl.tag last) = true ->
  ContentControl.tag last <> js "__proto__" ->
  ~ In (ContentControl.tag last) (tags_of after) ->
  FormData_get (getControlValues_loop (front ++ last :: after) values)
    (ContentControl.tag last)
  = Own (ContentControl.text last).
Proof.
  intros Ht Hp Hafter. rewrite getControlValues_loop_app.
  cbn [getControlValues_loop]. rewrite Ht.
  unfold FormData_get. rewrite getControlValues_loop_other by exact Hafter.
  pose proof (FormData_get_set_same (getControlValues_loop front values)
                (ContentControl.tag last) (ContentControl.text last) Hp) as H.
  unfold FormData_get in H. exact H.
Qed.

Lemma find_by_tag_first (before rest : ContentControls) (first : ContentControl.t) :
  ~ In (ContentControl.tag first) (tags_of before) ->
  find_by_tag (before ++ first :: rest) (ContentControl.tag first) = Some first.
Proof.
  induction before as [|c before IH]; intros H; cbn.
  - now rewrite jsstring_eqb_refl.
  - cbn in H. destruct (jsstring_eqb (ContentControl.tag c) (ContentControl.tag first)) eqn:E.
    + apply jsstring_eqb_eq in E. tauto.
    + apply IH. tauto.
Qed.

Lemma find_by_tag_none (items : ContentControls) (t : jsstring) :
  find_by_tag items t = None <-> ~ In t (tags_of items).
Proof.
  induction items as [|c items IH]; cbn; [tauto|].
  destruct (jsstring_eqb (ContentControl.tag c) t) eqn:E.
  - apply jsstring_eqb_eq in E. split; [discriminate | tauto].
  - apply jsstring_eqb_neq in E. rewrite IH. tauto.
Qed.

(** X18: several controls may carry one tag.  [findControlByTag] answers with
    the first of them in document order, and with [null] exactly when no
    control carries the tag; [getControlValues] keeps, under a tag that is
    not empty and not [__proto__], the text of the last of them. *)
Theorem first_found_last_kept (t : jsstring) :
  (forall before first rest,
      ContentControl.tag first = t ->
      ~ In t (tags_of before) ->
      findControlByTag (before ++ first :: rest) t
      = Some (ContentControl.id first, ContentControl.text first)) /\
  (forall items, findControlByTag items t = None <-> ~ In t (tags_of items)) /\
  (forall front last after,
      ContentControl.tag last = t ->
      truthy t = true ->
      t <> js "__proto__" ->
      ~ In t (tags_of after) ->
      FormData_get (getControlValues (front ++ last :: after)) t
      = Own (ContentControl.text last)).
Proof.
  split; [|split].
  - intros before first rest <- H. unfold findControlByTag.
    now rewrite find_by_tag_first.
  - intros items. unfold findControlByTag. rewrite <- find_by_tag_none.
    destruct (find_by_tag items t); split; intros H; try reflexivity; discriminate.
  - intros front last after <- Ht Hp Hafter. unfold getControlValues.
    now apply getControlValues_loop_last.
Qed.

Lemma first_found_last_kept_witness :
  findControlByTag
    ([field 1 "date" "?"] ++ field 2 "customer" "Ann" :: [field 3 "customer" "Bob"])
    (js "customer")
  = Some (2%Z, js "Ann") /\
  FormData_get
    (getControlValues
       ([field 1 "date" "?"; field 2 "customer" "Ann"] ++ field 3 "customer" "Bob" :: []))
    (js "customer")
  = Own (js "Bob").
Proof.
  pose proof (first_found_last_kept (js "customer")) as (Hfirst & _ & Hlast).
  split.
  - apply (Hfirst [field 1 "date" "?"] (field 2 "customer" "Ann")
             [field 3 "customer" "Bob"] eq_refl).
    vm_compute. intuition discriminate.
  - apply (Hlast [field 1 "date" "?"; field 2 "customer" "Ann"]
             (field 3 "customer" "Bob") [] eq_refl eq_refl).
    + discriminate.
    + intros [].
Defined.

Lemma last_with_tag (items : ContentControls) (t : jsstring) :
  In t (tags_of items) ->
  exists front last after,
    items = front ++ last :: after /\
    ContentControl.tag last = t /\
    ~ In t (tags_of after).
Proof.
  induction items as [|c items IH]; intros H; [destruct H|].
  destruct (in_dec (list_eq_dec ascii_dec) t (tags_of items)) as [Hin | Hout].
  - destruct (IH Hin) as (front & last & after & -> & Ht & Hafter).
    now exists (c :: front), last, after.
  - cbn in H. destruct H as [H | H]; [|contradiction].
    now exists [], c, items.
Qed.

(** X19: reading the values back after filling.  When no control's tag names
    a property that [data] only inherits from [Object.prototype],
    [fillFormTemplate] completes, and on the controls it leaves
    [getControlValues] returns the value of [data] under every tag that is
    not empty and not [__proto__], has a value in [data] and is carried by
    some control. *)
Theorem getControlValues_after_fill
  (data : FormData) (items : ContentControls) (t v : jsstring) :
  no_inherited_hit data items = true ->
  truthy t = true ->
  t <> js "__proto__" ->
  FormData_get data t = Own v ->
  In t (tags_of items) ->
  exists items' filled missing,
    fillFormTemplate data items = Ok (items', filled, missing) /\
    FormData_get (getControlValues items') t = Own v.
Proof.
  intros Hhit Ht Hp Hg Hin.
  unfold fillFormTemplate. rewrite fillFormTemplate_loop_map by exact Hhit.
  do 3 eexists. split; [reflexivity|].
  destruct (last_with_tag items t Hin) as (front & last & after & -> & Hlast & Hafter).
  rewrite map_app. cbn [map].
  assert (Htag : ContentControl.tag (filled_control data last) = t)
    by now rewrite filled_control_tag.
  assert (Htext : ContentControl.text (filled_control data last) = v).
  { unfold filled_control. rewrite Hlast, Ht, Hg. reflexivity. }
  rewrite <- Htext, <- Htag. unfold getControlValues.
  apply getControlValues_loop_last.
  - now rewrite Htag.
  - now rewrite Htag.
  - rewrite Htag, tags_of_filled. exact Hafter.
Qed.

Lemma getControlValues_after_fill_witness :
  exists items' filled missing,
    fillFormTemplate [(js "customer", js "Ann")]
      [field 1 "customer" ""; field 2 "date" "?"; field 3 "customer" "old"]
    = Ok (items', filled, missing) /\
    FormData_get (getControlValues items') (js "customer") = Own (js "Ann").
Proof.
  apply getControlValues_after_fill.
  - reflexivity.
  - reflexivity.
  - discriminate.
  - reflexivity.
  - vm_compute. tauto.
Defined.

Lemma filter_all (A : Type) (f : A -> bool) (l : list A) :
  (forall x, In x l -> f x = true) -> filter f l = l.
Proof.
  induction l as [|a l IH]; intros H; [reflexivity|].
  cbn. rewrite (H a) by now left. f_equal. apply IH. intros x Hx. apply H. now right.
Qed.

Lemma filter_none (A : Type) (f : A -> bool) (l : list A) :
  (forall x, In x l -> f x = false) -> filter f l = [].
Proof.
  induction l as [|a l IH]; intros H; [reflexivity|].
  cbn. rewrite (H a) by now left. apply IH. intros x Hx. apply H. now right.
Qed.

Lemma named_tags_app (a b : ContentControls) :
  named_tags (a ++ b) = named_tags a ++ named_tags b.
Proof. unfold named_tags, tags_of. now rewrite map_app, filter_app. Qed.

(** With tags used once, the values read are the texts of the controls. *)
Lemma getControlValues_own (items : ContentControls) (c : ContentControl.t) :
  NoDup (named_tags items) ->
  ~ In (js "__proto__") (tags_of items) ->
  In c items ->
  truthy (ContentControl.tag c) = true ->
  FormData_get (getControlValues items) (ContentControl.tag c)
  = Own (ContentControl.text c).
Proof.
  intros Hnd Hp Hin Ht.
  apply in_split in Hin as (front & after & ->).
  unfold getControlValues. apply getControlValues_loop_last; [exact Ht | |].
  - intros E. apply Hp. unfold tags_of. rewrite map_app. apply in_or_app. right.
    left. exact E.
  - intros Hafter. rewrite named_tags_app, named_tags_cons, Ht in Hnd.
    apply NoDup_remove_2 in Hnd. apply Hnd. apply in_or_app. right.
    unfold named_tags. apply filter_In. now split.
Qed.

(** X20: when every tag that is not empty is carried by one control only and no
    tag is [__proto__], filling the controls with the values read from them
    leaves every control as it is, reports every such tag as filled and
    none as missing. *)
Theorem fillFormTemplate_of_getControlValues (items : ContentControls) :
  NoDup (named_tags items) ->
  ~ In (js "__proto__") (tags_of items) ->
  fillFormTemplate (getControlValues items) items = Ok (items, named_tags items, []).
Proof.
  intros Hnd Hp.
  assert (Hown : forall c, In c items -> truthy (ContentControl.tag c) = true ->
                           FormData_get (getControlValues items) (ContentControl.tag c)
                           = Own (ContentControl.text c))
    by (intros c Hc Ht; now apply getControlValues_own).
  assert (Hhit : no_inherited_hit (getControlValues items) items = true).
  { unfold no_inherited_hit. apply forallb_forall. intros c Hc.
    destruct (truthy (ContentControl.tag c)) eqn:Ht; [|reflexivity].
    now rewrite (Hown c Hc Ht). }
  unfold fillFormTemplate. rewrite fillFormTemplate_loop_map by exact Hhit.
  cbn [safeWordRun app]. f_equal. f_equal; [f_equal|].
  - transitivity (map (fun c : ContentControl.t => c) items); [|apply map_id].
    apply map_ext_in. intros c Hc.
    unfold filled_control. destruct (truthy (ContentControl.tag c)) eqn:Ht; [|reflexivity].
    rewrite (Hown c Hc Ht). now destruct c.
  - apply filter_all. intros t Hin. unfold named_tags in Hin.
    apply filter_In in Hin as [Hin Ht]. unfold tags_of in Hin.
    apply in_map_iff in Hin as (c & <- & Hc).
    unfold has_value. now rewrite (Hown c Hc Ht).
  - apply filter_none. intros t Hin. unfold named_tags in Hin.
    apply filter_In in Hin as [Hin Ht]. unfold tags_of in Hin.
    apply in_map_iff in Hin as (c & <- & Hc).
    unfold has_value. now rewrite (Hown c Hc Ht).
Qed.

Lemma fillFormTemplate_of_getControlValues_witness :
  fillFormTemplate
    (getControlValues [field 1 "customer" "Ann"; field 2 "" "free"; field 3 "toString" "x"])
    [field 1 "customer" "Ann"; field 2 "" "free"; field 3 "toString" "x"]
  = Ok ([field 1 "customer" "Ann"; field 2 "" "free"; field 3 "toString" "x"],
        [js "customer"; js "toString"], []).
Proof.
  apply (fillFormTemplate_of_getControlValues
           [field 1 "customer" "Ann"; field 2 "" "free"; field 3 "toString" "x"]).
  - repeat constructor; simpl; intuition discriminate.
  - vm_compute. intuition discriminate.
Defined.

(** * loadDefaultEntities and search, further *)

Lemma loadDefaultEntities_app (a b : list StandardEntity) (lib : EntityLibrary) :
  loadDefaultEntities (a ++ b) lib = loadDefaultEntities b (loadDefaultEntities a lib).
Proof. apply fold_left_app. Qed.

Lemma getEntity_loadDefaultEntities_other
  (es : list StandardEntity) (lib : EntityLibrary) (k : jsstring) :
  ~ In k (map id es) -> getEntity (loadDefaultEntities es lib) k = getEntity lib k.
Proof.
  revert lib. induction es as [|e es IH]; intros lib H; [reflexivity|].
  cbn in H. cbn [loadDefaultEntities fold_left].
  change (fold_left register es (register lib e)) with (loadDefaultEntities es (register lib e)).
  rewrite IH by tauto. unfold getEntity, register. cbn.
  apply Map_get_set_other. intros E. apply H. now left.
Qed.

Lemma Map_keys_set_in (V : Type) (m : Map V) (k0 : jsstring) (v : V) (k : jsstring) :
  In k (Map_keys (Map_set m k0 v)) <-> In k (Map_keys m) \/ k = k0.
Proof.
  destruct (in_dec (list_eq_dec ascii_dec) k0 (Map_keys m)) as [Hin | Hout].
  - rewrite Map_keys_set_present by exact Hin. split; [tauto|].
    intros [H | ->]; assumption.
  - rewrite Map_set_new by exact Hout. unfold Map_keys. rewrite map_app, in_app_iff.
    cbn. split; intros [H | H].
    + now left.
    + destruct H as [<- | []]. now right.
    + now left.
    + right. left. now symmetry.
Qed.

(** X21: what [loadDefaultEntities] does to a library: the keys afterwards are
    the keys before and the ids of the defaults; an id that no default has
    is answered as before; and of several defaults with one id the last in
    the list is the one that is stored. *)
Theorem loadDefaultEntities_exact (es : list StandardEntity) (lib : EntityLibrary) :
  (forall k,
      In k (Map_keys (entities (loadDefaultEntities es lib))) <->
      In k (Map_keys (entities lib)) \/ In k (map id es)) /\
  (forall k,
      ~ In k (map id es) ->
      getEntity (loadDefaultEntities es lib) k = getEntity lib k) /\
  (forall front e after,
      es = front ++ e :: after ->
      ~ In (id e) (map id after) ->
      getEntity (loadDefaultEntities es lib) (id e) = Some e).
Proof.
  split; [|split].
  - revert lib. induction es as [|e es IH]; intros lib k; [cbn; tauto|].
    cbn [loadDefaultEntities fold_left].
    change (fold_left register es (register lib e))
      with (loadDefaultEntities es (register lib e)).
    rewrite IH. unfold register. cbn [entities]. rewrite Map_keys_set_in. cbn.
    split; intros H; intuition (subst; auto).
  - intros k. apply getEntity_loadDefaultEntities_other.
  - intros front e after -> Hafter. rewrite loadDefaultEntities_app.
    cbn [loadDefaultEntities fold_left].
    change (fold_left register after (register (fold_left register front lib) e))
      with (loadDefaultEntities after (register (loadDefaultEntities front lib) e)).
    rewrite getEntity_loadDefaultEntities_other by exact Hafter.
    apply Map_get_set_same.
Qed.

Lemma loadDefaultEntities_exact_witness :
  getEntity
    (loadDefaultEntities ([governing_law] ++ governing_law_v3 :: [company_signature])
       empty_library)
    (id governing_law_v3)
  = Some governing_law_v3.
Proof.
  apply (proj2 (proj2 (loadDefaultEntities_exact
                         ([governing_law] ++ governing_law_v3 :: [company_signature])
                         empty_library))
           [governing_law] governing_law_v3 [company_signature] eq_refl).
  vm_compute. intuition discriminate.
Defined.

Lemma includes_inner (t a q b : jsstring) :
  includes t (a ++ q ++ b) = true -> includes t q = true.
Proof.
  rewrite !includes_app. intros (pre & post & ->).
  exists (pre ++ a), (b ++ post). now rewrite <- !app_assoc.
Qed.

Lemma search_hit_inner (a q b : jsstring) (e : StandardEntity) :
  search_hit (toLowerCase (a ++ q ++ b)) e = true -> search_hit (toLowerCase q) e = true.
Proof.
  unfold search_hit. rewrite !toLowerCase_app, !orb_true_iff.
  intros [H | H]; [left | right]; now apply includes_inner in H.
Qed.

(** X22: for queries, names and contents of the range U+0000-U+00FF a longer
    query narrows the result: the entities found for a query that contains
    [q] are those found for [q] that also match the longer query, in the
    same order. *)
Theorem search_narrows (lib : EntityLibrary) (a q b : jsstring) :
  search lib (a ++ q ++ b)
  = filter (search_hit (toLowerCase (a ++ q ++ b))) (search lib q) /\
  incl (search lib (a ++ q ++ b)) (search lib q).
Proof.
  assert (E : search lib (a ++ q ++ b)
              = filter (search_hit (toLowerCase (a ++ q ++ b))) (search lib q)).
  { unfold search. induction (Map_values (entities lib)) as [|e l IH]; [reflexivity|].
    cbn [filter].
    destruct (search_hit (toLowerCase (a ++ q ++ b)) e) eqn:H.
    - rewrite (search_hit_inner a q b e H). cbn [filter]. rewrite H. now f_equal.
    - destruct (search_hit (toLowerCase q) e); [cbn [filter]; rewrite H|]; exact IH. }
  split; [exact E|].
  rewrite E. intros e He. now apply filter_In in He.
Qed.
